(** * mini-tools: the JSON flattener and the CSV-to-JSON converter

    A shallow embedding of [json-flattener/json_flattener.py] and
    [csv2json-converter/csv2json.py], and the properties of the two tools
    that the specification states.

    - A Python [str] is a [string] (the bytes of its UTF-8 encoding), an
      [int] is a [Z]; a [float] is not interpreted and is kept as the text
      of its literal.
    - A [dict] is the list of its items in insertion order, with pairwise
      distinct keys; assignment and [update] are [dict_set] and
      [dict_update].
    - A call returns a value or raises: [Py.result]. The functions that
      read or write files take the file system and return it.
    - [JsonFlattener.flatten] is the method on values; [Heap.flatten] is
      the same method on a store of objects, where an assignment changes an
      object in place.
    - [csv.DictReader], [json.load], [json.dump] and the files are not in
      the repository: [Csv], [JsonLoad], [JsonDump] and [OS] describe the
      standard library as the two tools call it (default dialect, default
      arguments but [indent=2]).

    Definitions come first, then the lemmas about them, then the properties
    of the two tools, each after a comment that starts with its number. *)

From Stdlib Require Import ZArith List Ascii String Bool Lia.
From stdpp Require Import base option list strings pretty gmap.

Local Open Scope string_scope.
Local Open Scope list_scope.

(** ** Exceptions *)

Module Py.

(** The exception classes the two programs raise or catch. *)
Inductive exn_class :=
  | TypeError | ValueError | UnicodeDecodeError | UnicodeEncodeError
  | JSONDecodeError | AttributeError | RuntimeError | CsvError
  | FileNotFoundError | FileExistsError | PermissionError
  | IsADirectoryError | RecursionError | SystemError.

Record exn := Exn { exn_cls : exn_class; exn_msg : string }.

(** [isinstance(e, c)] for [c] a class named in an [except] clause:
    [UnicodeDecodeError], [UnicodeEncodeError] and [json.JSONDecodeError]
    derive from [ValueError]; the file errors derive from [OSError]; each of
    them derives from [Exception]. *)
Definition subclass (c d : exn_class) : bool :=
  match c, d with
  | TypeError, TypeError | ValueError, ValueError
  | UnicodeDecodeError, UnicodeDecodeError
  | UnicodeEncodeError, UnicodeEncodeError
  | JSONDecodeError, JSONDecodeError | AttributeError, AttributeError
  | RuntimeError, RuntimeError | CsvError, CsvError
  | FileNotFoundError, FileNotFoundError
  | FileExistsError, FileExistsError | PermissionError, PermissionError
  | IsADirectoryError, IsADirectoryError
  | RecursionError, RecursionError | SystemError, SystemError => true
  | (UnicodeDecodeError | UnicodeEncodeError | JSONDecodeError), ValueError
  | RecursionError, RuntimeError => true
  | _, _ => false
  end.

(** The outcome of a call: a value, or a raised exception. *)
Inductive result (A : Type) :=
  | Ok (a : A)
  | Raise (e : exn).
Arguments Ok {A} a.
Arguments Raise {A} e.

Definition bind {A B} (r : result A) (k : A → result B) : result B :=
  match r with
  | Ok a => k a
  | Raise e => Raise e
  end.

End Py.

Import Py.

#[global] Instance result_ret : MRet result := @Ok.
#[global] Instance result_bind : MBind result := λ A B k r, Py.bind r k.

(** ** JSON values and Python dictionaries *)

(** The values at the leaves: [None], [bool], [int], [float] and [str].
    A float is kept as the text of its literal. *)
Inductive scalar :=
  | SNone
  | SBool (b : bool)
  | SInt (n : Z)
  | SFloat (lit : string)
  | SStr (s : string).

(** Keys of a dictionary: the [str] keys of a JSON object, the [int] keys
    that [dict(enumerate(...))] creates, and [None], the key under which
    [csv.DictReader] stores the cells beyond the header. *)
Inductive key :=
  | KInt (i : Z)
  | KStr (s : string)
  | KNone.

#[global] Instance scalar_eq_dec : EqDecision scalar.
Proof. solve_decision. Defined.

#[global] Instance key_eq_dec : EqDecision key.
Proof. solve_decision. Defined.

Unset Elimination Schemes.
Inductive value :=
  | VScalar (s : scalar)
  | VDict (items : list (key * value))
  | VList (elems : list value).
Set Elimination Schemes.

(** Induction over the nesting of a value. *)
Definition value_ind (P : value → Prop)
    (Hs : ∀ s, P (VScalar s))
    (Hd : ∀ items, Forall (λ kv, P (snd kv)) items → P (VDict items))
    (Hl : ∀ elems, Forall P elems → P (VList elems)) : ∀ v, P v :=
  fix go (v : value) : P v :=
    match v with
    | VScalar s => Hs s
    | VDict items =>
        Hd items ((fix go_items (l : list (key * value)) :
                     Forall (λ kv, P (snd kv)) l :=
                     match l with
                     | [] => List.Forall_nil _
                     | kv :: l' => List.Forall_cons _ kv l' (go (snd kv)) (go_items l')
                     end) items)
    | VList elems =>
        Hl elems ((fix go_elems (l : list value) : Forall P l :=
                     match l with
                     | [] => List.Forall_nil _
                     | x :: l' => List.Forall_cons _ x l' (go x) (go_elems l')
                     end) elems)
    end.

(** A [dict]: its items in insertion order. *)
Section Dict.

Context {K V : Type} `{EqDecision K}.

Definition keys (d : list (K * V)) : list K := map fst d.

(** [d[k] = v]: the value of an existing key is replaced where it stands, a
    new key goes to the end. *)
Fixpoint dict_set (d : list (K * V)) (k : K) (v : V) : list (K * V) :=
  match d with
  | [] => [(k, v)]
  | (k', v') :: d' =>
      if decide (k' = k) then (k, v) :: d' else (k', v') :: dict_set d' k v
  end.

(** [d.update(other)]: the items of [other] are assigned in their order. *)
Definition dict_update (d other : list (K * V)) : list (K * V) :=
  fold_left (λ acc kv, dict_set acc (fst kv) (snd kv)) other d.

(** [d.get(k)] *)
Fixpoint dict_get (d : list (K * V)) (k : K) : option V :=
  match d with
  | [] => None
  | (k', v) :: d' => if decide (k' = k) then Some v else dict_get d' k
  end.

End Dict.

(** The flattened mapping: a [dict] from [str] to scalars. *)
Definition pydict := list (string * scalar).

(** A mapping from [str] to scalars as a value: a dictionary without
    nesting. *)
Definition flat_value (m : pydict) : value :=
  VDict (map (λ ks, (KStr (fst ks), VScalar (snd ks))) m).

(** [dict(enumerate(xs))], counting from [i]. *)
Fixpoint enumerate_from (i : Z) (xs : list value) : list (key * value) :=
  match xs with
  | [] => []
  | x :: xs' => (KInt i, x) :: enumerate_from (i + 1) xs'
  end.

Definition enumerate (xs : list value) : list (key * value) :=
  enumerate_from 0 xs.

(** ** [JsonFlattener] *)

Module JsonFlattener.

(** [str(k)] for a key. *)
Definition str (k : key) : string :=
  match k with
  | KInt i => pretty i
  | KStr s => s
  | KNone => "None"
  end.

(** [type(x).__name__] for a scalar. *)
Definition type_name (s : scalar) : string :=
  match s with
  | SNone => "NoneType"
  | SBool _ => "bool"
  | SInt _ => "int"
  | SFloat _ => "float"
  | SStr _ => "str"
  end.

(** Truth value of a string: the empty string is false. *)
Definition truthy (s : string) : bool :=
  match s with
  | EmptyString => false
  | String _ _ => true
  end.

Section Flatten.

(** The two properties of the object. *)
Variables dict_sep list_sep : string.

(** Lines 67 and 70: the separator for the key ([list_sep] when
    [isinstance(k, int)]), and the flattened key. *)
Definition sep_of (k : key) : string :=
  match k with
  | KInt _ => list_sep
  | KStr _ | KNone => dict_sep
  end.

Definition cur_key (parent_key : string) (k : key) : string :=
  if truthy parent_key then parent_key +:+ sep_of k +:+ str k else str k.

(** The body of the loop (lines 66 to 80) for one item [(k, v)];
    [flatten] is the recursive call.  A list is passed on as it is: the
    call iterates it as [dict(enumerate(v))], which line 77 builds before
    the call. *)
Definition visit (flatten : value → string → result pydict)
    (parent_key : string) (k : key) (v : value) (flat_data : pydict) :
    result pydict :=
  let ck := cur_key parent_key k in
  match v with
  | VDict _ | VList _ =>
      sub ← flatten v ck ; Ok (dict_update flat_data sub)
  | VScalar s => Ok (dict_set flat_data ck s)
  end.

(** [flatten(data, parent_key)].  A list is iterated as
    [dict(enumerate(data))]; calling [.items()] on a scalar raises
    [AttributeError]. *)
Fixpoint flatten (data : value) (parent_key : string) : result pydict :=
  match data with
  | VScalar s =>
      if negb (truthy parent_key) then Ok []
      else Raise (Exn AttributeError
             ("'" +:+ type_name s +:+ "' object has no attribute 'items'"))
  | VDict items =>
      (fix loop (items : list (key * value)) (flat_data : pydict) :=
         match items with
         | [] => Ok flat_data
         | (k, v) :: rest =>
             fd ← visit flatten parent_key k v flat_data ; loop rest fd
         end) items []
  | VList elems =>
      (fix loop (i : Z) (elems : list value) (flat_data : pydict) :=
         match elems with
         | [] => Ok flat_data
         | v :: rest =>
             fd ← visit flatten parent_key (KInt i) v flat_data ;
             loop (i + 1)%Z rest fd
         end) 0%Z elems []
  end.

(** The loop of [flatten] over the items of a dictionary, from a given
    [flat_data]. *)
Fixpoint flatten_items (items : list (key * value)) (parent_key : string)
    (flat_data : pydict) : result pydict :=
  match items with
  | [] => Ok flat_data
  | (k, v) :: rest =>
      fd ← visit flatten parent_key k v flat_data ;
      flatten_items rest parent_key fd
  end.

End Flatten.

End JsonFlattener.

Import JsonFlattener.

(** ** Leaves and their flattened keys *)

(** A path from the root: the keys and indices to follow. *)
Definition path := list key.

(** The scalar leaves of a value, with their paths, in iteration order. *)
Fixpoint leaves (v : value) : list (path * scalar) :=
  match v with
  | VScalar s => [([], s)]
  | VDict items =>
      (fix go (items : list (key * value)) :=
         match items with
         | [] => []
         | (k, v) :: rest =>
             map (λ ps, (k :: fst ps, snd ps)) (leaves v) ++ go rest
         end) items
  | VList elems =>
      (fix go (i : Z) (elems : list value) :=
         match elems with
         | [] => []
         | v :: rest =>
             map (λ ps, (KInt i :: fst ps, snd ps)) (leaves v) ++
             go (i + 1)%Z rest
         end) 0%Z elems
  end.

Fixpoint leaves_items (items : list (key * value)) : list (path * scalar) :=
  match items with
  | [] => []
  | (k, v) :: rest =>
      map (λ ps, (k :: fst ps, snd ps)) (leaves v) ++ leaves_items rest
  end.

(** [at_path v p x]: following the keys and indices of [p] from [v] leads
    to [x]. *)
Inductive at_path : value → path → value → Prop :=
  | at_here v : at_path v [] v
  | at_key items k c p x :
      (k, c) ∈ items → at_path c p x → at_path (VDict items) (k :: p) x
  | at_index elems (i : nat) c p x :
      elems !! i = Some c → at_path c p x →
      at_path (VList elems) (KInt (Z.of_nat i) :: p) x.

(** The flattened key of a path below [parent_key]: [cur_key] along it. *)
Fixpoint path_key (dict_sep list_sep : string) (parent_key : string)
    (p : path) : string :=
  match p with
  | [] => parent_key
  | k :: p' =>
      path_key dict_sep list_sep (cur_key dict_sep list_sep parent_key k) p'
  end.

(** The pairs that the leaves below [parent_key] assign, in order. *)
Definition leaf_pairs (dict_sep list_sep : string) (parent_key : string)
    (ls : list (path * scalar)) : pydict :=
  map (λ ps, (path_key dict_sep list_sep parent_key (fst ps), snd ps)) ls.



Definition is_container (v : value) : Prop :=
  match v with
  | VScalar _ => False
  | VDict _ | VList _ => True
  end.

(** The dictionary that the loop iterates over after line 63. *)
Definition items_of (data : value) : list (key * value) :=
  match data with
  | VScalar _ => []
  | VDict items => items
  | VList elems => enumerate elems
  end.


(** ** Text *)

(** A [str] is held as the bytes of its UTF-8 encoding (a lone surrogate,
    which [json.loads] can produce, as the three bytes of that form). *)

Module Text.

Definition dquote : ascii := "034"%char.
Definition backslash : ascii := "092"%char.
Definition LF : ascii := "010"%char.
Definition CR : ascii := "013"%char.

Definition code (c : ascii) : N := N_of_ascii c.

Definition is_cont (b : N) : bool := (N.land b 192 =? 128)%N.

Definition is_surrogate (cp : N) : bool :=
  ((55296 <=? cp) && (cp <=? 57343))%N.

(** The code points of a UTF-8 byte sequence, [None] when it is not
    well-formed.  [strict] refuses surrogates, as the [utf-8] codec does. *)
Fixpoint utf8_decode (strict : bool) (bs : list N) : option (list N) :=
  match bs with
  | [] => Some []
  | b0 :: r0 =>
      if b0 <? 128 then cons b0 <$> utf8_decode strict r0
      else if (194 <=? b0) && (b0 <=? 223) then
        match r0 with
        | b1 :: r1 =>
            if is_cont b1
            then cons (N.lor (N.shiftl (N.land b0 31) 6) (N.land b1 63))
                   <$> utf8_decode strict r1
            else None
        | _ => None
        end
      else if (224 <=? b0) && (b0 <=? 239) then
        match r0 with
        | b1 :: b2 :: r2 =>
            let cp := N.lor (N.shiftl (N.land b0 15) 12)
                        (N.lor (N.shiftl (N.land b1 63) 6) (N.land b2 63)) in
            if is_cont b1 && is_cont b2 && (2048 <=? cp) &&
               negb (strict && is_surrogate cp)
            then cons cp <$> utf8_decode strict r2
            else None
        | _ => None
        end
      else if (240 <=? b0) && (b0 <=? 244) then
        match r0 with
        | b1 :: b2 :: b3 :: r3 =>
            let cp := N.lor (N.shiftl (N.land b0 7) 18)
                        (N.lor (N.shiftl (N.land b1 63) 12)
                           (N.lor (N.shiftl (N.land b2 63) 6)
                              (N.land b3 63))) in
            if is_cont b1 && is_cont b2 && is_cont b3 &&
               (65536 <=? cp) && (cp <=? 1114111)
            then cons cp <$> utf8_decode strict r3
            else None
        | _ => None
        end
      else None
  end%N.

Definition bytes_of (s : string) : list N :=
  map code (list_ascii_of_string s).

Definition of_bytes (bs : list N) : string :=
  string_of_list_ascii (map ascii_of_N bs).

(** The UTF-8 bytes of a code point. *)
Definition utf8_encode (cp : N) : list N :=
  (if cp <? 128 then [cp]
   else if cp <? 2048 then
     [N.lor 192 (N.shiftr cp 6); N.lor 128 (N.land cp 63)]
   else if cp <? 65536 then
     [N.lor 224 (N.shiftr cp 12); N.lor 128 (N.land (N.shiftr cp 6) 63);
      N.lor 128 (N.land cp 63)]
   else
     [N.lor 240 (N.shiftr cp 18); N.lor 128 (N.land (N.shiftr cp 12) 63);
      N.lor 128 (N.land (N.shiftr cp 6) 63); N.lor 128 (N.land cp 63)])%N.

(** The code points of a [str]. *)
Definition code_points (s : string) : list N :=
  default [] (utf8_decode false (bytes_of s)).

(** Reading in text mode with [newline=None]: the two other line endings
    become a line feed. *)
Fixpoint universal_newlines (s : string) : string :=
  match s with
  | EmptyString => EmptyString
  | String c r =>
      if Ascii.eqb c CR then
        match r with
        | String c' r' =>
            if Ascii.eqb c' LF then String LF (universal_newlines r')
            else String LF (universal_newlines r)
        | EmptyString => String LF EmptyString
        end
      else String c (universal_newlines r)
  end.

(** The lines of a text, each with its line feed, as iterating over a file
    gives them. *)
Fixpoint lines_from (cur : string) (s : string) : list string :=
  match s with
  | EmptyString =>
      match cur with
      | EmptyString => []
      | _ => [cur]
      end
  | String c r =>
      if Ascii.eqb c LF then (cur +:+ String c EmptyString) :: lines_from "" r
      else lines_from (cur +:+ String c EmptyString) r
  end.

Definition lines (s : string) : list string := lines_from "" s.

(** [s.lower()] on the letters [A] to [Z]. *)
Definition lower_char (c : ascii) : ascii :=
  if (65 <=? code c)%N && (code c <=? 90)%N then ascii_of_N (code c + 32)
  else c.

Fixpoint lower (s : string) : string :=
  match s with
  | EmptyString => EmptyString
  | String c r => String (lower_char c) (lower r)
  end.

Definition hex_digit (n : N) : ascii :=
  if (n <? 10)%N then ascii_of_N (48 + n) else ascii_of_N (87 + n).

(** [format(n, "04x")] for [n] below [65536]. *)
Definition hex4 (n : N) : string :=
  String (hex_digit (N.land (N.shiftr n 12) 15))
    (String (hex_digit (N.land (N.shiftr n 8) 15))
       (String (hex_digit (N.land (N.shiftr n 4) 15))
          (String (hex_digit (N.land n 15)) EmptyString))).

End Text.

(** ** Files *)

Module OS.

(** [pathlib.Path]: the directory part and the final component. *)
Record Path := MkPath { parent : string; name : string }.

(** [str(path)] *)
Definition path_str (p : Path) : string :=
  if decide (parent p = ".") then name p
  else if decide (parent p = "/") then "/" +:+ name p
  else parent p +:+ "/" +:+ name p.

(** Index of the last ['.'] in a string. *)
Fixpoint rfind_dot (i : nat) (s : string) : option nat :=
  match s with
  | EmptyString => None
  | String c r =>
      match rfind_dot (S i) r with
      | Some j => Some j
      | None => if Ascii.eqb c "."%char then Some i else None
      end
  end.

(** [path.suffix]: from the last dot of the name, unless that dot is its
    first or its last character. *)
Definition suffix (p : Path) : string :=
  match rfind_dot 0 (name p) with
  | Some i =>
      if ((0 <? i) && (i <? String.length (name p) - 1))%nat
      then String.substring i (String.length (name p) - i)%nat (name p)
      else ""
  | None => ""
  end.

Record file := MkFile {
  f_bytes : string;
  f_readable : bool;
  f_writable : bool
}.

Inductive node :=
  | NFile (f : file)
  | NDir (writable : bool).

(** The file system: what is at each path. *)
Abbreviation fs := (gmap string node).

(** [path.exists()] *)
Definition exists_ (st : fs) (p : Path) : bool :=
  match st !! path_str p with
  | Some _ => true
  | None => false
  end.

Definition os_error (c : exn_class) (what : string) (p : Path) : exn :=
  Exn c (what +:+ ": '" +:+ path_str p +:+ "'").

(** [path.open("r", encoding="utf-8")] and reading the whole text, which
    is decoded before any of it is used.  Of the message of a decoding
    error, the byte and its position are left out. *)
Definition read_text (st : fs) (p : Path) : result string :=
  match st !! path_str p with
  | None => Raise (os_error FileNotFoundError
                     "[Errno 2] No such file or directory" p)
  | Some (NDir _) => Raise (os_error IsADirectoryError
                              "[Errno 21] Is a directory" p)
  | Some (NFile f) =>
      if negb (f_readable f)
      then Raise (os_error PermissionError "[Errno 13] Permission denied" p)
      else match Text.utf8_decode true (Text.bytes_of (f_bytes f)) with
           | None => Raise (Exn UnicodeDecodeError
                              "'utf-8' codec can't decode bytes")
           | Some _ => Ok (Text.universal_newlines (f_bytes f))
           end
  end.

(** [path.open("w", encoding="utf-8")]: an existing file is emptied, a
    missing one is created in its directory. *)
Definition open_write (st : fs) (p : Path) : result fs :=
  match st !! path_str p with
  | Some (NDir _) => Raise (os_error IsADirectoryError
                              "[Errno 21] Is a directory" p)
  | Some (NFile f) =>
      if f_writable f
      then Ok (<[path_str p := NFile (MkFile "" (f_readable f) true)]> st)
      else Raise (os_error PermissionError "[Errno 13] Permission denied" p)
  | None =>
      match st !! parent p with
      | Some (NDir true) =>
          Ok (<[path_str p := NFile (MkFile "" true true)]> st)
      | Some (NDir false) =>
          Raise (os_error PermissionError "[Errno 13] Permission denied" p)
      | Some (NFile _) =>
          Raise (os_error FileNotFoundError "[Errno 20] Not a directory" p)
      | None =>
          Raise (os_error FileNotFoundError
                   "[Errno 2] No such file or directory" p)
      end
  end.

(** Writing [text] to the file opened at [p], and closing it. *)
Definition write_text (st : fs) (p : Path) (text : string) : fs :=
  match st !! path_str p with
  | Some (NFile f) =>
      <[path_str p :=
          NFile (MkFile (f_bytes f +:+ text) (f_readable f) (f_writable f))]> st
  | _ => st
  end.

(** The bytes of the file at [p]. *)
Definition contents (st : fs) (p : Path) : option string :=
  match st !! path_str p with
  | Some (NFile f) => Some (f_bytes f)
  | _ => None
  end.

End OS.

(** ** The [csv] module *)

(** The reader of the standard library for the default [excel] dialect
    (delimiter [,], quote character, doubled quotes, not strict), and
    [csv.DictReader] with its default [restkey] and [restval]. *)

Module Csv.

Import Text.

Inductive state :=
  | START_RECORD | START_FIELD | IN_FIELD | IN_QUOTED_FIELD
  | QUOTE_IN_QUOTED_FIELD | EAT_CRNL.

#[global] Instance state_eq_dec : EqDecision state.
Proof. solve_decision. Defined.

Record reader := MkReader {
  r_state : state;
  r_field : string;
  r_field_len : N;
  r_fields : list string
}.

(** What the reader is given: a character of the line, or the end of the
    line. *)
Inductive input :=
  | Ch (c : ascii)
  | EOL.

Definition field_limit : N := 131072.

Definition parse_reset : reader := MkReader START_RECORD "" 0 [].

Definition set_state (r : reader) (st : state) : reader :=
  MkReader st (r_field r) (r_field_len r) (r_fields r).

Definition parse_save_field (r : reader) (st : state) : reader :=
  MkReader st "" 0 (r_fields r ++ [r_field r]).

(** One more character in the field; the length counts characters, so the
    bytes that continue a character are not counted. *)
Definition parse_add_char (r : reader) (c : ascii) (st : state) :
    result reader :=
  if is_cont (code c)
  then Ok (MkReader st (r_field r +:+ String c "") (r_field_len r)
             (r_fields r))
  else if (field_limit <=? r_field_len r)%N
  then Raise (Exn CsvError "field larger than field limit (131072)")
  else Ok (MkReader st (r_field r +:+ String c "") (r_field_len r + 1)
             (r_fields r)).

Definition is_newline (c : ascii) : bool := Ascii.eqb c LF || Ascii.eqb c CR.

Definition start_field (r : reader) (i : input) : result reader :=
  match i with
  | EOL => Ok (parse_save_field r START_RECORD)
  | Ch c =>
      if is_newline c then Ok (parse_save_field r EAT_CRNL)
      else if Ascii.eqb c dquote then Ok (set_state r IN_QUOTED_FIELD)
      else if Ascii.eqb c ","%char then Ok (parse_save_field r START_FIELD)
      else parse_add_char r c IN_FIELD
  end.

Definition parse_process_char (r : reader) (i : input) : result reader :=
  match r_state r with
  | START_RECORD =>
      match i with
      | EOL => Ok r
      | Ch c =>
          if is_newline c then Ok (set_state r EAT_CRNL) else start_field r i
      end
  | START_FIELD => start_field r i
  | IN_FIELD =>
      match i with
      | EOL => Ok (parse_save_field r START_RECORD)
      | Ch c =>
          if is_newline c then Ok (parse_save_field r EAT_CRNL)
          else if Ascii.eqb c ","%char then Ok (parse_save_field r START_FIELD)
          else parse_add_char r c IN_FIELD
      end
  | IN_QUOTED_FIELD =>
      match i with
      | EOL => Ok r
      | Ch c =>
          if Ascii.eqb c dquote then Ok (set_state r QUOTE_IN_QUOTED_FIELD)
          else parse_add_char r c IN_QUOTED_FIELD
      end
  | QUOTE_IN_QUOTED_FIELD =>
      match i with
      | EOL => Ok (parse_save_field r START_RECORD)
      | Ch c =>
          if Ascii.eqb c dquote then parse_add_char r c IN_QUOTED_FIELD
          else if Ascii.eqb c ","%char then Ok (parse_save_field r START_FIELD)
          else if is_newline c then Ok (parse_save_field r EAT_CRNL)
          else parse_add_char r c IN_FIELD
      end
  | EAT_CRNL =>
      match i with
      | EOL => Ok (set_state r START_RECORD)
      | Ch c =>
          if is_newline c then Ok r
          else Raise (Exn CsvError
                 "new-line character seen in unquoted field - do you need to open the file with newline=''?")
      end
  end.

(** The characters of a line, then its end. *)
Fixpoint process_line (r : reader) (line : string) : result reader :=
  match line with
  | EmptyString => parse_process_char r EOL
  | String c rest =>
      r' ← parse_process_char r (Ch c); process_line r' rest
  end.

(** The rows of the reader: lines are consumed until a record is complete;
    at the end of the input, a record left open is closed. *)
Fixpoint reader_rows (lines : list string) (r : reader) :
    result (list (list string)) :=
  match lines with
  | [] =>
      if negb (r_field_len r =? 0)%N || bool_decide (r_state r = IN_QUOTED_FIELD)
      then Ok [r_fields (parse_save_field r START_RECORD)]
      else Ok []
  | line :: rest =>
      r' ← process_line r line;
      if bool_decide (r_state r' = START_RECORD)
      then rows ← reader_rows rest parse_reset; Ok (r_fields r' :: rows)
      else reader_rows rest r'
  end.

Definition cell (s : string) : value := VScalar (SStr s).

(** The dictionary of a row: [dict(zip(fieldnames, row))], then the cells
    beyond the header under [None], or [None] for the fields beyond the
    row. *)
Definition make_record (fieldnames row : list string) : list (key * value) :=
  let d := dict_update [] (zip (map KStr fieldnames) (map cell row)) in
  let lf := length fieldnames in
  let lr := length row in
  if (lf <? lr)%nat then dict_set d KNone (VList (map cell (drop lf row)))
  else if (lr <? lf)%nat then
    fold_left (λ d k, dict_set d (KStr k) (VScalar SNone)) (drop lr fieldnames) d
  else d.

Definition is_nil {A} (l : list A) : bool :=
  match l with
  | [] => true
  | _ => false
  end.

(** [list(csv.DictReader(file))]: the first row gives the field names, rows
    without any field are skipped. *)
Definition DictReader (text : string) : result (list (list (key * value))) :=
  rows ← reader_rows (lines text) parse_reset;
  match rows with
  | [] => Ok []
  | fieldnames :: rest =>
      Ok (map (make_record fieldnames) (filter (λ row, is_nil row = false) rest))
  end.

End Csv.

(** ** [json.dump] *)

Module JsonDump.

Import Text.

(** A character inside a JSON string, with [ensure_ascii]. *)
Definition escape_cp (cp : N) : string :=
  (if cp =? 34 then String backslash (String dquote "")
   else if cp =? 92 then String backslash (String backslash "")
   else if cp =? 10 then String backslash "n"
   else if cp =? 13 then String backslash "r"
   else if cp =? 9 then String backslash "t"
   else if cp =? 8 then String backslash "b"
   else if cp =? 12 then String backslash "f"
   else if (32 <=? cp) && (cp <=? 126) then String (ascii_of_N cp) ""
   else if cp <? 65536 then String backslash "u" +:+ hex4 cp
   else
     let v := cp - 65536 in
     String backslash "u" +:+ hex4 (N.lor 55296 (N.land (N.shiftr v 10) 1023))
     +:+ String backslash "u" +:+ hex4 (N.lor 56320 (N.land v 1023)))%N.

Definition dump_str (s : string) : string :=
  String dquote "" +:+
  fold_right (λ cp acc, escape_cp cp +:+ acc) "" (code_points s) +:+
  String dquote "".

Definition dump_scalar (s : scalar) : string :=
  match s with
  | SNone => "null"
  | SBool true => "true"
  | SBool false => "false"
  | SInt n => pretty n
  | SFloat lit => lit
  | SStr s => dump_str s
  end.

(** The text of a key: a [str] as it is, an [int] in decimal, [None] as
    [null]. *)
Definition dump_key (k : key) : string :=
  match k with
  | KStr s => dump_str s
  | KInt i => dump_str (pretty i)
  | KNone => dump_str "null"
  end.

Fixpoint spaces (n : nat) : string :=
  match n with
  | O => ""
  | S n' => String " "%char (spaces n')
  end.

(** A new line, indented for the nesting [level], with [indent=2]. *)
Definition newline_indent (level : nat) : string :=
  String LF "" +:+ spaces (2 * level).

(** [json.dumps(v, indent=2)] at a nesting level. *)
Fixpoint dumps_at (level : nat) (v : value) : string :=
  match v with
  | VScalar s => dump_scalar s
  | VList [] => "[]"
  | VList (x :: xs) =>
      "[" +:+ newline_indent (S level) +:+ dumps_at (S level) x +:+
      (fix rest (xs : list value) : string :=
         match xs with
         | [] => ""
         | y :: ys =>
             "," +:+ newline_indent (S level) +:+ dumps_at (S level) y +:+
             rest ys
         end) xs +:+
      newline_indent level +:+ "]"
  | VDict [] => "{}"
  | VDict ((k, x) :: xs) =>
      "{" +:+ newline_indent (S level) +:+ dump_key k +:+ ": " +:+
      dumps_at (S level) x +:+
      (fix rest (xs : list (key * value)) : string :=
         match xs with
         | [] => ""
         | (k', y) :: ys =>
             "," +:+ newline_indent (S level) +:+ dump_key k' +:+ ": " +:+
             dumps_at (S level) y +:+ rest ys
         end) xs +:+
      newline_indent level +:+ "}"
  end.

Definition dumps (v : value) : string := dumps_at 0 v.

End JsonDump.

(** ** [Csv2JsonConverter] *)

Module Csv2JsonConverter.

Import OS.

(** The object after its construction. *)
Record t := Make {
  _source : Path;
  _destination : Path;
  _over_write : bool
}.

(** What is given for [over_write]: a [bool], or a [str]. *)
Inductive arg :=
  | ABool (b : bool)
  | AStr (s : string).

(** Lines 52 to 56. *)
Definition _set_over_write (over_write : arg) : result bool :=
  match over_write with
  | ABool b => Ok b
  | AStr _ =>
      Raise (Exn TypeError
        "Invalid type for 'over_write': expected 'bool', got 'str'.")
  end.

(** Line 91: [--over-write] is declared with [default=False] and without an
    action, so that it takes one argument and stores it as the [str] it
    is. *)
Definition parsed_over_write (given : option string) : arg :=
  match given with
  | None => ABool false
  | Some s => AStr s
  end.

(** Lines 66 to 72, inside the [try]. *)
Definition convert_body (self : t) (st : fs) : result unit * fs :=
  match read_text st (_source self) with
  | Raise e => (Raise e, st)
  | Ok text =>
      match Csv.DictReader text with
      | Raise e => (Raise e, st)
      | Ok data =>
          if Csv.is_nil data
          then (Raise (Exn ValueError
                  ("The source file '" +:+ path_str (_source self) +:+
                   "' is empty. Nothing to convert.")), st)
          else
            match open_write st (_destination self) with
            | Raise e => (Raise e, st)
            | Ok st' =>
                (Ok (), write_text st' (_destination self)
                          (JsonDump.dumps (VList (map VDict data))))
            end
      end
  end.

(** Lines 74 to 83: the [except] clauses, tried in their order. *)
Definition handlers (self : t) (e : exn) : exn :=
  if subclass (exn_cls e) PermissionError
  then Exn PermissionError ("Permission denied: " +:+ exn_msg e +:+ ".")
  else if subclass (exn_cls e) UnicodeDecodeError
  then Exn ValueError ("Could not decode file '" +:+
                       path_str (_source self) +:+ "': " +:+ exn_msg e)
  else if subclass (exn_cls e) CsvError
  then Exn ValueError ("CSV format error in '" +:+
                       path_str (_source self) +:+ "': " +:+ exn_msg e)
  else if subclass (exn_cls e) TypeError
  then Exn ValueError ("Could not serialize to JSON: " +:+ exn_msg e)
  else Exn RuntimeError ("Unexpected error during conversion: " +:+ exn_msg e).

(** [convert()] *)
Definition convert (self : t) (st : fs) : result unit * fs :=
  if exists_ st (_destination self) && negb (_over_write self)
  then (Raise (Exn FileExistsError
          ("The destination file '" +:+ path_str (_destination self) +:+
           "' already exists. Use '--over-write' to overwrite it.")), st)
  else
    match convert_body self st with
    | (Ok u, st') => (Ok u, st')
    | (Raise e, st') => (Raise (handlers self e), st')
    end.

End Csv2JsonConverter.

(** ** [json.load] *)

(** The decoder of the standard library: objects become dictionaries (of a
    repeated key, the last value stays, at the place of the first), numbers
    without fraction and exponent become integers, the others are kept as
    the text of their literal; [NaN], [Infinity] and [-Infinity] are
    accepted.  The position that the messages of the library end with is
    left out.  [fuel] bounds the nested calls; [loads] takes it from the
    length of the text, of which every nested call consumes a character,
    so that the recursion limit of the interpreter is not modelled. *)

Module JsonLoad.

Import Text.

Definition error (msg : string) : exn := Exn JSONDecodeError msg.

Definition out_of_fuel : exn :=
  Exn RecursionError "maximum recursion depth exceeded".

Definition is_ws (c : ascii) : bool :=
  Ascii.eqb c " "%char || Ascii.eqb c "009"%char || Ascii.eqb c LF ||
  Ascii.eqb c CR.

Fixpoint skip_ws (s : string) : string :=
  match s with
  | EmptyString => EmptyString
  | String c r => if is_ws c then skip_ws r else s
  end.

Definition is_digit (c : ascii) : bool :=
  ((48 <=? code c) && (code c <=? 57))%N.

Definition hex_value (c : ascii) : option N :=
  let n := code c in
  (if (48 <=? n) && (n <=? 57) then Some (n - 48)
   else if (97 <=? n) && (n <=? 102) then Some (n - 87)
   else if (65 <=? n) && (n <=? 70) then Some (n - 55)
   else None)%N.

(** Four hexadecimal digits at the start of [s]. *)
Definition hex4_value (s : string) : option (N * string) :=
  match s with
  | String a (String b (String c (String d r))) =>
      x ← hex_value a; y ← hex_value b; z ← hex_value c; w ← hex_value d;
      Some (4096 * x + 256 * y + 16 * z + w, r)%N
  | _ => None
  end.

(** A low surrogate escape at the start of [s]. *)
Definition low_surrogate (s : string) : option (N * string) :=
  match s with
  | String b (String u r) =>
      if Ascii.eqb b backslash && Ascii.eqb u "u"%char then
        match hex4_value r with
        | Some (lo, r') =>
            if ((56320 <=? lo) && (lo <=? 57343))%N then Some (lo, r')
            else None
        | None => None
        end
      else None
  | _ => None
  end.

Definition simple_escape (c : ascii) : option ascii :=
  if Ascii.eqb c dquote then Some dquote
  else if Ascii.eqb c backslash then Some backslash
  else if Ascii.eqb c "/"%char then Some "/"%char
  else if Ascii.eqb c "b"%char then Some "008"%char
  else if Ascii.eqb c "f"%char then Some "012"%char
  else if Ascii.eqb c "n"%char then Some LF
  else if Ascii.eqb c "r"%char then Some CR
  else if Ascii.eqb c "t"%char then Some "009"%char
  else None.

(** The string that ends at the next quote; [s] starts after the opening
    quote. *)
Fixpoint scanstring (fuel : nat) (s : string) (acc : string) :
    result (string * string) :=
  match fuel with
  | O => Raise out_of_fuel
  | S fuel' =>
      match s with
      | EmptyString => Raise (error "Unterminated string starting at")
      | String c r =>
          if Ascii.eqb c dquote then Ok (acc, r)
          else if Ascii.eqb c backslash then
            match r with
            | EmptyString => Raise (error "Unterminated string starting at")
            | String e r' =>
                if Ascii.eqb e "u"%char then
                  match hex4_value r' with
                  | None => Raise (error "Invalid \uXXXX escape")
                  | Some (hi, r'') =>
                      match
                        (if ((55296 <=? hi) && (hi <=? 56319))%N
                         then low_surrogate r'' else None)
                      with
                      | Some (lo, r''') =>
                          scanstring fuel' r'''
                            (acc +:+ of_bytes (utf8_encode
                               (65536 + N.shiftl (hi - 55296) 10 +
                                (lo - 56320))%N))
                      | None =>
                          scanstring fuel' r''
                            (acc +:+ of_bytes (utf8_encode hi))
                      end
                  end
                else
                  match simple_escape e with
                  | Some x => scanstring fuel' r' (acc +:+ String x "")
                  | None => Raise (error "Invalid \escape")
                  end
            end
          else if (code c <? 32)%N
          then Raise (error "Invalid control character at")
          else scanstring fuel' r (acc +:+ String c "")
      end
  end.

(** The digits at the start of [s], and what follows them. *)
Fixpoint scan_digits (s : string) : string * string :=
  match s with
  | EmptyString => ("", "")
  | String c r =>
      if is_digit c then
        let '(ds, r') := scan_digits r in (String c ds, r')
      else ("", s)
  end.

Definition digits_value (ds : string) : Z :=
  fold_left (λ acc c, (10 * acc + Z.of_N (code c - 48))%Z)
    (list_ascii_of_string ds) 0%Z.

(** The integer part of a number: [0], or digits that do not start
    with [0]. *)
Definition scan_int (s : string) : option (string * string) :=
  match s with
  | String c r =>
      if Ascii.eqb c "0"%char then Some ("0", r)
      else if is_digit c then
        let '(ds, r') := scan_digits r in Some (String c ds, r')
      else None
  | EmptyString => None
  end.

Definition scan_frac (s : string) : string * string :=
  match s with
  | String c r =>
      if Ascii.eqb c "."%char then
        match scan_digits r with
        | (EmptyString, _) => ("", s)
        | (ds, r') => (String c ds, r')
        end
      else ("", s)
  | EmptyString => ("", s)
  end.

Definition scan_exp (s : string) : string * string :=
  match s with
  | String e r =>
      if Ascii.eqb e "e"%char || Ascii.eqb e "E"%char then
        let '(sign, r1) :=
          match r with
          | String g r1 =>
              if Ascii.eqb g "+"%char || Ascii.eqb g "-"%char
              then (String g "", r1) else ("", r)
          | EmptyString => ("", r)
          end in
        match scan_digits r1 with
        | (EmptyString, _) => ("", s)
        | (ds, r') => (String e (sign +:+ ds), r')
        end
      else ("", s)
  | EmptyString => ("", s)
  end.

(** Integers of more than 4300 digits are refused by [int]. *)
Definition max_str_digits : nat := 4300.

Definition scan_number (s : string) : option (result (scalar * string)) :=
  let '(sign, s1) :=
    match s with
    | String c r => if Ascii.eqb c "-"%char then ("-", r) else ("", s)
    | EmptyString => ("", s)
    end in
  match scan_int s1 with
  | None => None
  | Some (ds, r) =>
      let '(frac, r1) := scan_frac r in
      let '(exp, r2) := scan_exp r1 in
      match frac, exp with
      | EmptyString, EmptyString =>
          if (max_str_digits <? String.length ds)%nat
          then Some (Raise (Exn ValueError
                 "Exceeds the limit (4300 digits) for integer string conversion"))
          else
            let n := digits_value ds in
            Some (Ok (SInt (if decide (sign = "-") then (- n)%Z else n), r2))
      | _, _ => Some (Ok (SFloat (sign +:+ ds +:+ frac +:+ exp), r2))
      end
  end.

(** [s] without the prefix [p], when it starts with it. *)
Fixpoint strip_prefix (p s : string) : option string :=
  match p, s with
  | EmptyString, _ => Some s
  | String a p', String b s' =>
      if Ascii.eqb a b then strip_prefix p' s' else None
  | _, _ => None
  end.

(** A value that is neither a string, an object nor an array. *)
Definition scan_atom (s : string) : result (scalar * string) :=
  match strip_prefix "null" s with
  | Some r => Ok (SNone, r)
  | None =>
  match strip_prefix "true" s with
  | Some r => Ok (SBool true, r)
  | None =>
  match strip_prefix "false" s with
  | Some r => Ok (SBool false, r)
  | None =>
  match strip_prefix "NaN" s with
  | Some r => Ok (SFloat "NaN", r)
  | None =>
  match strip_prefix "Infinity" s with
  | Some r => Ok (SFloat "Infinity", r)
  | None =>
  match strip_prefix "-Infinity" s with
  | Some r => Ok (SFloat "-Infinity", r)
  | None =>
  match scan_number s with
  | Some res => res
  | None => Raise (error "Expecting value")
  end end end end end end end.

Fixpoint scan_once (fuel : nat) (s : string) : result (value * string) :=
  match fuel with
  | O => Raise out_of_fuel
  | S fuel' =>
      match s with
      | EmptyString => Raise (error "Expecting value")
      | String c r =>
          if Ascii.eqb c dquote then
            '(str, r') ← scanstring (String.length r + 1) r "";
            Ok (VScalar (SStr str), r')
          else if Ascii.eqb c "{"%char then
            match skip_ws r with
            | String "}"%char r' => Ok (VDict [], r')
            | r1 =>
                '(pairs, r') ← parse_members fuel' r1;
                Ok (VDict (dict_update [] pairs), r')
            end
          else if Ascii.eqb c "["%char then
            match skip_ws r with
            | String "]"%char r' => Ok (VList [], r')
            | r1 =>
                '(elems, r') ← parse_elements fuel' r1; Ok (VList elems, r')
            end
          else
            '(a, r') ← scan_atom s; Ok (VScalar a, r')
      end
  end
with parse_members (fuel : nat) (s : string) :
    result (list (key * value) * string) :=
  match fuel with
  | O => Raise out_of_fuel
  | S fuel' =>
      match s with
      | String c r =>
          if Ascii.eqb c dquote then
            '(k, r1) ← scanstring (String.length r + 1) r "";
            match skip_ws r1 with
            | String ":"%char r2 =>
                '(v, r3) ← scan_once fuel' (skip_ws r2);
                match skip_ws r3 with
                | String "}"%char r4 => Ok ([(KStr k, v)], r4)
                | String ","%char r4 =>
                    '(rest, r5) ← parse_members fuel' (skip_ws r4);
                    Ok ((KStr k, v) :: rest, r5)
                | _ => Raise (error "Expecting ',' delimiter")
                end
            | _ => Raise (error "Expecting ':' delimiter")
            end
          else Raise (error
                 "Expecting property name enclosed in double quotes")
      | EmptyString =>
          Raise (error "Expecting property name enclosed in double quotes")
      end
  end
with parse_elements (fuel : nat) (s : string) :
    result (list value * string) :=
  match fuel with
  | O => Raise out_of_fuel
  | S fuel' =>
      '(v, r1) ← scan_once fuel' s;
      match skip_ws r1 with
      | String "]"%char r2 => Ok ([v], r2)
      | String ","%char r2 =>
          '(rest, r3) ← parse_elements fuel' (skip_ws r2);
          Ok (v :: rest, r3)
      | _ => Raise (error "Expecting ',' delimiter")
      end
  end.

(** [json.loads(s)] *)
Definition loads (s : string) : result value :=
  match strip_prefix (of_bytes [239; 187; 191]%N) s with
  | Some _ =>
      Raise (error "Unexpected UTF-8 BOM (decode using utf-8-sig)")
  | None =>
      '(v, r) ← scan_once (2 * String.length s + 2) (skip_ws s);
      match skip_ws r with
      | EmptyString => Ok v
      | _ => Raise (error "Extra data")
      end
  end.

End JsonLoad.

(** ** [AppJsonFlattener] *)

Module AppJsonFlattener.

Import OS.

(** The parsed command line: [-s/--source] and [-w/--overwrite]. *)
Record Namespace := MkNamespace { source : Path; overwrite : bool }.

Section Main.

Variables dict_sep list_sep : string.

Definition output_of (source_fpath : Path) : Path :=
  MkPath (parent source_fpath) ("flat_" +:+ name source_fpath).

(** Lines 114 to 117, inside the [try]; the result is the line printed. *)
Definition main_body (source_fpath output_fpath : Path) (st : fs) :
    result string * fs :=
  match (text ← read_text st source_fpath; JsonLoad.loads text) with
  | Raise e => (Raise e, st)
  | Ok data =>
      match flatten dict_sep list_sep data "" with
      | Raise e => (Raise e, st)
      | Ok flat_data =>
          match open_write st output_fpath with
          | Raise e => (Raise e, st)
          | Ok st' =>
              (Ok ("Output location: '" +:+ path_str output_fpath +:+ "'"),
               write_text st' output_fpath
                 (JsonDump.dumps (flat_value flat_data)))
          end
      end
  end.

(** Lines 118 to 129: the [except] clauses, tried in their order. *)
Definition handlers (source_fpath output_fpath : Path) (e : exn) : exn :=
  if subclass (exn_cls e) PermissionError
  then Exn PermissionError
         ("Permission denied while accessing '" +:+ path_str source_fpath +:+
          "' or '" +:+ path_str output_fpath +:+ "': " +:+ exn_msg e +:+ ".")
  else if subclass (exn_cls e) UnicodeDecodeError
  then Exn ValueError
         ("Could not decode JSON from '" +:+ path_str source_fpath +:+
          "': " +:+ exn_msg e +:+ ".")
  else if subclass (exn_cls e) UnicodeEncodeError
  then Exn ValueError
         ("Could not encode JSON to '" +:+ path_str output_fpath +:+
          "': " +:+ exn_msg e +:+ ".")
  else Exn RuntimeError
         ("Unexpected error while processing '" +:+ path_str source_fpath +:+
          "' → '" +:+ path_str output_fpath +:+ "': " +:+ exn_msg e +:+ ".").

(** [main()], from the parsed command line. *)
Definition main (args : Namespace) (st : fs) : result string * fs :=
  let source_fpath := source args in
  if negb (exists_ st source_fpath)
  then (Raise (Exn FileNotFoundError
          ("The source file path '" +:+ path_str source_fpath +:+
           "' does not exist.")), st)
  else if negb (bool_decide (Text.lower (suffix source_fpath) = ".json"))
  then (Raise (Exn ValueError
          ("Invalid file type: expected '.json', got '" +:+
           suffix source_fpath +:+ "'.")), st)
  else
    let output_fpath := output_of source_fpath in
    if exists_ st output_fpath && negb (overwrite args)
    then (Raise (Exn FileExistsError
            ("The output file path '" +:+ path_str output_fpath +:+
             "' already exist. Use -w or --overwrite to overwrite the output file.")),
          st)
    else
      match main_body source_fpath output_fpath st with
      | (Ok line, st') => (Ok line, st')
      | (Raise e, st') => (Raise (handlers source_fpath output_fpath e), st')
      end.

End Main.

End AppJsonFlattener.

(** ** [flatten] on objects in memory *)

(** The same method with its objects in a store: a dictionary or a list
    holds references, [flat_data] is a new dictionary that the loop
    assigns to, and [dict(enumerate(...))] is a new dictionary with the
    references of the list.  [fuel] is the number of nested calls the
    interpreter allows; beyond it, the call raises [RecursionError]. *)

Module Heap.

Abbreviation loc := nat.

Inductive obj :=
  | OScalar (s : scalar)
  | ODict (items : list (key * loc))
  | OList (elems : list loc).

(** The store: the object at each address; a new object gets the next
    address. *)
Abbreviation heap := (list obj).

Definition alloc (o : obj) (h : heap) : loc * heap := (length h, h ++ [o]).

(** [d[k] = v] on the dictionary at [d]. *)
Definition store_item (d : loc) (k : key) (v : loc) (h : heap) : heap :=
  match h !! d with
  | Some (ODict items) => <[d := ODict (dict_set items k v)]> h
  | _ => h
  end.

(** [d.update(other)] on the dictionary at [d]. *)
Definition update_from (d other : loc) (h : heap) : heap :=
  match h !! other with
  | Some (ODict items) =>
      fold_left (λ h kv, store_item d (fst kv) (snd kv) h) items h
  | _ => h
  end.

(** The items of [dict(enumerate(elems))], counting from [i]. *)
Fixpoint enumerate_locs (i : Z) (elems : list loc) : list (key * loc) :=
  match elems with
  | [] => []
  | l :: rest => (KInt i, l) :: enumerate_locs (i + 1) rest
  end.

Definition no_object : exn := Exn SystemError "no object at this address".

Section Flatten.

Variables dict_sep list_sep : string.

(** The loop of lines 65 to 80 over the items of a dictionary; [flatten]
    is the recursive call, [flat_data] the dictionary being filled. *)
Fixpoint loop (flatten : loc → string → heap → result loc * heap)
    (flat_data : loc) (parent_key : string) (items : list (key * loc))
    (h : heap) : result loc * heap :=
  match items with
  | [] => (Ok flat_data, h)
  | (k, v) :: rest =>
      let ck := cur_key dict_sep list_sep parent_key k in
      match h !! v with
      | Some (ODict _) =>
          match flatten v ck h with
          | (Ok sub, h') =>
              loop flatten flat_data parent_key rest
                (update_from flat_data sub h')
          | (Raise e, h') => (Raise e, h')
          end
      | Some (OList elems) =>
          let '(d, h) := alloc (ODict (enumerate_locs 0 elems)) h in
          match flatten d ck h with
          | (Ok sub, h') =>
              loop flatten flat_data parent_key rest
                (update_from flat_data sub h')
          | (Raise e, h') => (Raise e, h')
          end
      | Some (OScalar _) =>
          loop flatten flat_data parent_key rest
            (store_item flat_data (KStr ck) v h)
      | None => (Raise no_object, h)
      end
  end.

Fixpoint flatten (fuel : nat) (data : loc) (parent_key : string) (h : heap) :
    result loc * heap :=
  match fuel with
  | O => (Raise (Exn RecursionError "maximum recursion depth exceeded"), h)
  | S fuel' =>
      let '(flat_data, h) := alloc (ODict []) h in
      match h !! data with
      | Some (OScalar s) =>
          if negb (truthy parent_key) then (Ok flat_data, h)
          else (Raise (Exn AttributeError
                  ("'" +:+ type_name s +:+
                   "' object has no attribute 'items'")), h)
      | Some (ODict items) =>
          loop (flatten fuel') flat_data parent_key items h
      | Some (OList elems) =>
          let '(d, h) := alloc (ODict (enumerate_locs 0 elems)) h in
          loop (flatten fuel') flat_data parent_key
            (enumerate_locs 0 elems) h
      | None => (Raise no_object, h)
      end
  end.

End Flatten.

(** The object at [l] in [h] is the value [v]. *)
Fixpoint repr (h : heap) (v : value) (l : loc) : Prop :=
  match v with
  | VScalar s => h !! l = Some (OScalar s)
  | VDict items =>
      ∃ litems, h !! l = Some (ODict litems) ∧
        (fix go (items : list (key * value)) (litems : list (key * loc)) :=
           match items, litems with
           | [], [] => True
           | (k, v) :: r, (k', l') :: r' => k = k' ∧ repr h v l' ∧ go r r'
           | _, _ => False
           end) items litems
  | VList elems =>
      ∃ locs, h !! l = Some (OList locs) ∧
        (fix go (elems : list value) (locs : list loc) :=
           match elems, locs with
           | [], [] => True
           | v :: r, l' :: r' => repr h v l' ∧ go r r'
           | _, _ => False
           end) elems locs
  end.

(** The items [litems] of a dictionary in [h] are the items [items]. *)
Definition items_repr (h : heap) (items : list (key * value))
    (litems : list (key * loc)) : Prop :=
  Forall2 (λ kv kl, fst kv = fst kl ∧ repr h (snd kv) (snd kl)) items litems.

(** The items of a dictionary in [h] are those of a flattened mapping. *)
Definition repr_flat (h : heap) (d : list (key * loc)) (m : pydict) : Prop :=
  Forall2 (λ kl ks, fst kl = KStr (fst ks) ∧
                    h !! snd kl = Some (OScalar (snd ks))) d m.

(** Every object of [h] is in [h'], at its address and as it was. *)
Definition preserved (h h' : heap) : Prop :=
  ∀ i o, h !! i = Some o → h' !! i = Some o.

End Heap.

(** The number of nested containers of a value. *)
Fixpoint depth (v : value) : nat :=
  match v with
  | VScalar _ => 0
  | VDict items =>
      S ((fix go (items : list (key * value)) : nat :=
            match items with
            | [] => 0
            | (_, v) :: rest => Nat.max (depth v) (go rest)
            end) items)
  | VList elems =>
      S ((fix go (elems : list value) : nat :=
            match elems with
            | [] => 0
            | v :: rest => Nat.max (depth v) (go rest)
            end) elems)
  end.

(** ** Documents used in the examples *)

(** [[{"a": 1}, {"a": 2}]] *)
Definition doc_array_of_objects : value :=
  VList [VDict [(KStr "a", VScalar (SInt 1))];
         VDict [(KStr "a", VScalar (SInt 2))]].

(** [{"a": [1, 2]}] *)
Definition doc_object_of_array : value :=
  VDict [(KStr "a", VList [VScalar (SInt 1); VScalar (SInt 2)])].

(** [{"a.b": 1, "a": {"b": 2}}] *)
Definition doc_colliding : value :=
  VDict [(KStr "a.b", VScalar (SInt 1));
         (KStr "a", VDict [(KStr "b", VScalar (SInt 2))])].

(** [{"x": 1, "y": "two", "": null}] as a flat mapping. *)
Definition doc_flat : pydict :=
  [("x", SInt 1); ("y", SStr "two"); ("", SNone)].


(** ** Files used in the examples *)

Module Demo.

Import OS Text.

Definition nl : string := String LF "".

Definition quoted (s : string) : string :=
  String dquote "" +:+ s +:+ String dquote "".

(** A table with the header [name,age] and the row [alice,30]. *)
Definition people_csv : string :=
  "name,age" +:+ nl +:+ "alice,30" +:+ nl.

(** The same table as a program on Windows writes it, without a line
    ending after the last row. *)
Definition people_csv_crlf : string :=
  "name,age" +:+ String CR nl +:+ "alice,30".

(** The same table without its row. *)
Definition header_csv : string := "name,age" +:+ nl.

(** The rows of [people_csv]: [[{"name": "alice", "age": "30"}]]. *)
Definition people_rows : list (list (key * value)) :=
  [[(KStr "name", VScalar (SStr "alice")); (KStr "age", VScalar (SStr "30"))]].

(** The text of [people_rows] with an indentation of two spaces. *)
Definition people_json : string :=
  "[" +:+ nl +:+
  "  {" +:+ nl +:+
  "    " +:+ quoted "name" +:+ ": " +:+ quoted "alice" +:+ "," +:+ nl +:+
  "    " +:+ quoted "age" +:+ ": " +:+ quoted "30" +:+ nl +:+
  "  }" +:+ nl +:+
  "]".

Definition src_csv : Path := MkPath "." "people.csv".
Definition dst_json : Path := MkPath "." "people.json".

Definition regular (bytes : string) : node := NFile (MkFile bytes true true).

(** A directory with the table only. *)
Definition fs_people : fs :=
  <["people.csv" := regular people_csv]> (<["." := NDir true]> ∅).

(** A directory with the table without rows. *)
Definition fs_header : fs :=
  <["people.csv" := regular header_csv]> (<["." := NDir true]> ∅).

(** A directory with the table and an older destination file. *)
Definition fs_people_old : fs :=
  <["people.json" := regular "old"]> fs_people.

(** [{"a": [1, 2]}] as a file, with an older output file beside it. *)
Definition doc_json : string :=
  "{" +:+ quoted "a" +:+ ": [1, 2]}" +:+ nl.




End Demo.

(** [{"a": [1, 2]}] in a store: the two numbers, the list, the
    dictionary. *)
Definition heap_doc : Heap.heap :=
  [Heap.OScalar (SInt 1); Heap.OScalar (SInt 2); Heap.OList [0; 1]%nat;
   Heap.ODict [(KStr "a", 2%nat)]].

(** A list that contains itself. *)
Definition heap_cycle : Heap.heap := [Heap.OList [0%nat]].

(** ** Further definitions *)

(** The value in which every list is replaced by the object keyed by its
    indices, written in decimal: [["x", ["y"]]] becomes
    [{"0": "x", "1": {"0": "y"}}]. *)
Fixpoint stringify (v : value) : value :=
  match v with
  | VScalar s => VScalar s
  | VDict items =>
      VDict ((fix go (items : list (key * value)) : list (key * value) :=
                match items with
                | [] => []
                | (k, x) :: rest => (k, stringify x) :: go rest
                end) items)
  | VList elems =>
      VDict ((fix go (i : Z) (elems : list value) : list (key * value) :=
                match elems with
                | [] => []
                | x :: rest =>
                    (KStr (pretty i), stringify x) :: go (i + 1)%Z rest
                end) 0%Z elems)
  end.

(** A mapping with [a] put before each of its keys. *)
Definition prepend_keys (a : string) (d : pydict) : pydict :=
  map (λ ks, (a +:+ fst ks, snd ks)) d.

(** The items that [stringify] gives a list, counting from [i]. *)
Fixpoint stringify_from (i : Z) (elems : list value) : list (key * value) :=
  match elems with
  | [] => []
  | x :: rest => (KStr (pretty i), stringify x) :: stringify_from (i + 1) rest
  end.

(** ** [pathlib], continued *)

Module PathLib.

Import OS.

(** [str(path)], also for a path without a name ([.] and [/]). *)
Definition dir_str (p : Path) : string :=
  if decide (name p = "") then parent p else path_str p.

(** [path.with_suffix(sfx)] for a path with a name: the name without its
    suffix, then [sfx]. *)
Definition with_suffix (p : Path) (sfx : string) : Path :=
  MkPath (parent p)
    (String.substring 0 (String.length (name p) - String.length (suffix p))
       (name p) +:+ sfx).

(** [path.joinpath(child)] for the name of a file. *)
Definition joinpath (p : Path) (child : string) : Path :=
  MkPath (dir_str p) child.

(** Index of the last [/] in a string. *)
Fixpoint rfind_slash (i : nat) (s : string) : option nat :=
  match s with
  | EmptyString => None
  | String c r =>
      match rfind_slash (S i) r with
      | Some j => Some j
      | None => if Ascii.eqb c "/"%char then Some i else None
      end
  end.

(** [str(Path(d).parent)] *)
Definition dirname (d : string) : string :=
  match rfind_slash 0 d with
  | None => "."
  | Some O => "/"
  | Some i => String.substring 0 i d
  end.

Definition errno (c : exn_class) (what d : string) : exn :=
  Exn c (what +:+ ": '" +:+ d +:+ "'").

(** [os.mkdir(d)], and what [exist_ok=True] makes of its error: a
    directory that exists is left as it is.  A file in the place of the
    parent directory is reported as [open_write] reports it. *)
Definition mkdir_once (st : fs) (d : string) : result fs :=
  match st !! dirname d with
  | None =>
      Raise (errno FileNotFoundError "[Errno 2] No such file or directory" d)
  | Some (NFile _) =>
      Raise (errno FileNotFoundError "[Errno 20] Not a directory" d)
  | Some (NDir writable) =>
      match st !! d with
      | Some (NDir _) => Ok st
      | Some (NFile _) =>
          Raise (errno FileExistsError "[Errno 17] File exists" d)
      | None =>
          if writable then Ok (<[d := NDir true]> st)
          else Raise (errno PermissionError "[Errno 13] Permission denied" d)
      end
  end.

(** [Path(d).mkdir(parents=True, exist_ok=True)]: when the parent
    directory is missing, it is made first, in the same way, unless [d] is
    its own parent. *)
Fixpoint mkdir (fuel : nat) (st : fs) (d : string) : result fs :=
  match st !! dirname d with
  | None =>
      if decide (dirname d = d) then mkdir_once st d
      else
        match fuel with
        | O => Raise (Exn RecursionError "maximum recursion depth exceeded")
        | S fuel' => st' ← mkdir fuel' st (dirname d); mkdir_once st' d
        end
  | Some _ => mkdir_once st d
  end.

(** The nested calls follow the components of [d]. *)
Definition mkdir_parents (st : fs) (d : string) : result fs :=
  mkdir (String.length d + 1) st d.

End PathLib.

(** Every file and directory of [st] is in [st'], as it was. *)
Definition kept (st st' : OS.fs) : Prop :=
  ∀ q n, st !! q = Some n → st' !! q = Some n.

(** ** [Csv2JsonConverter]: the constructor and the command line *)

Module Csv2Json.

Import OS PathLib.

(** What is given for a path: a [str] or a [Path], as the path it denotes,
    or a value of another type. *)
Inductive path_arg :=
  | APath (p : Path)
  | ANotPath (type_name : string).

(** Lines 19 to 29. *)
Definition _set_source (source : path_arg) (st : fs) : result Path :=
  match source with
  | ANotPath tn =>
      Raise (Exn TypeError
        ("Invalid type for 'source': expected 'str' or 'Path', got '" +:+
         tn +:+ "'."))
  | APath p =>
      if negb (bool_decide (Text.lower (suffix p) = ".csv"))
      then Raise (Exn ValueError
             "The source file must have a '.csv' extension.")
      else if negb (exists_ st p)
      then Raise (Exn FileNotFoundError
             ("The source file '" +:+ path_str p +:+ "' does not exist."))
      else Ok p
  end.

(** Lines 35 to 46; [_source] is the source that [_set_source] has set. *)
Definition _set_destination (_source : Path) (destination : path_arg)
    (st : fs) : result Path * fs :=
  match destination with
  | ANotPath tn =>
      (Raise (Exn TypeError
         ("Invalid type for 'destination': expected 'str' or 'Path', got '"
          +:+ tn +:+ "'.")), st)
  | APath p =>
      if negb (truthy (suffix p)) then
        let fname := name (with_suffix _source ".json") in
        let dest := joinpath p fname in
        match mkdir_parents st (parent dest) with
        | Raise e => (Raise e, st)
        | Ok st' => (Ok dest, st')
        end
      else if negb (bool_decide (Text.lower (suffix p) = ".json"))
      then (Raise (Exn ValueError
              "The destination file must have a '.json' extension."), st)
      else (Ok p, st)
  end.

(** Lines 9 to 13. *)
Definition __init__ (source destination : path_arg)
    (over_write : Csv2JsonConverter.arg) (st : fs) :
    result Csv2JsonConverter.t * fs :=
  match _set_source source st with
  | Raise e => (Raise e, st)
  | Ok src =>
      match _set_destination src destination st with
      | (Raise e, st') => (Raise e, st')
      | (Ok dest, st') =>
          match Csv2JsonConverter._set_over_write over_write with
          | Raise e => (Raise e, st')
          | Ok ow => (Ok (Csv2JsonConverter.Make src dest ow), st')
          end
      end
  end.

(** The parsed command line: [-s/--source], [-d/--destination] and
    [--over-write], the last two when they are given. *)
Record Args := MkArgs {
  source : Path;
  destination : option Path;
  over_write : option string
}.

(** Lines 86 to 101: the exit status, the lines printed, and the files. *)
Definition main (args : Args) (st : fs) : (Z * list string) * fs :=
  let dest := default (MkPath "." "output.json") (destination args) in
  match __init__ (APath (source args)) (APath dest)
          (Csv2JsonConverter.parsed_over_write (over_write args)) st with
  | (Raise e, st') => ((1%Z, ["Problem: " +:+ exn_msg e]), st')
  | (Ok converter, st') =>
      match Csv2JsonConverter.convert converter st' with
      | (Ok _, st'') => ((0%Z, []), st'')
      | (Raise e, st'') => ((1%Z, ["Problem: " +:+ exn_msg e]), st'')
      end
  end.

End Csv2Json.


(** ** Tables of plain cells *)

Module Table.

Import Text.










End Table.

(** ** Files used in the further examples *)

Module Demo2.

Import OS Demo.

(** A JSON file that holds the number 42, one that holds no JSON, and a
    file with another extension. *)
Definition fs_misc : fs :=
  <["data/n.json" := regular "42"]>
    (<["data/bad.json" := regular "{1: 2}"]>
       (<["data/notes.txt" := regular "{}"]> (<["data" := NDir true]> ∅))).




End Demo2.
(** ** Dictionaries *)

Section DictFacts.

Context {K V : Type} `{EqDecision K}.
Implicit Types (d e : list (K * V)) (k : K) (v : V).

Lemma dict_set_in d k v : k ∈ keys d → keys (dict_set d k v) = keys d.
Proof.
  induction d as [|[k' v'] d IH]; simpl.
  - intros H. by apply elem_of_nil in H.
  - intros H. destruct (decide (k' = k)) as [->|Hne]; [done|].
    simpl. f_equal. apply IH. apply elem_of_cons in H as [H|H]; congruence.
Qed.

Lemma dict_set_notin d k v : k ∉ keys d → dict_set d k v = d ++ [(k, v)].
Proof.
  induction d as [|[k' v'] d IH]; simpl; [done|].
  intros H. apply not_elem_of_cons in H as [Hne H].
  destruct (decide (k' = k)) as [->|_]; [done|]. by rewrite IH.
Qed.

Lemma dict_set_keys d k v k' : k' ∈ keys (dict_set d k v) ↔ k' = k ∨ k' ∈ keys d.
Proof.
  destruct (decide (k ∈ keys d)) as [Hin|Hout].
  - rewrite dict_set_in by done. split; [auto|]. by intros [->|?].
  - rewrite dict_set_notin by done. unfold keys. rewrite map_app. simpl.
    rewrite elem_of_app, list_elem_of_singleton. tauto.
Qed.

Lemma dict_set_NoDup d k v : NoDup (keys d) → NoDup (keys (dict_set d k v)).
Proof.
  intros Hnd. destruct (decide (k ∈ keys d)) as [Hin|Hout].
  - by rewrite dict_set_in.
  - rewrite dict_set_notin by done. unfold keys. rewrite map_app. simpl.
    apply NoDup_app. split; [done|]. split; [|apply NoDup_singleton].
    intros x Hx Hx'. apply list_elem_of_singleton in Hx'. by subst.
Qed.

Lemma dict_update_cons d k v e :
  dict_update d ((k, v) :: e) = dict_update (dict_set d k v) e.
Proof. done. Qed.

Lemma dict_update_NoDup d e : NoDup (keys d) → NoDup (keys (dict_update d e)).
Proof.
  revert d. induction e as [|[k v] e IH]; intros d Hd; [done|].
  rewrite dict_update_cons. apply IH. by apply dict_set_NoDup.
Qed.

Lemma dict_update_keys d e k :
  k ∈ keys (dict_update d e) ↔ k ∈ keys d ∨ k ∈ keys e.
Proof.
  revert d. induction e as [|[k' v'] e IH]; intros d.
  - simpl. rewrite elem_of_nil. tauto.
  - rewrite dict_update_cons, IH, dict_set_keys. simpl.
    rewrite elem_of_cons. tauto.
Qed.


Lemma dict_set_set d k v v' : dict_set (dict_set d k v') k v = dict_set d k v.
Proof.
  induction d as [|[k1 v1] d IH]; simpl.
  - by rewrite decide_True.
  - destruct (decide (k1 = k)) as [->|Hne]; simpl.
    + by rewrite decide_True.
    + destruct (decide (k1 = k)); [done|]. by rewrite IH.
Qed.

(** Two assignments to different keys commute when the second key is
    already present. *)
Lemma dict_set_comm d k v k1 v1 :
  k ≠ k1 → k ∈ keys d →
  dict_set (dict_set d k1 v1) k v = dict_set (dict_set d k v) k1 v1.
Proof.
  intros Hne. induction d as [|[a b] d IH]; simpl; intros Hin.
  - by apply elem_of_nil in Hin.
  - destruct (decide (a = k1)) as [->|Ha1]; simpl.
    + destruct (decide (k1 = k)) as [->|_]; [done|]. simpl.
      by rewrite decide_True.
    + destruct (decide (a = k)) as [->|Hak]; simpl.
      * by destruct (decide (k = k1)).
      * destruct (decide (a = k1)); [done|]. f_equal. apply IH.
        apply elem_of_cons in Hin as [?|?]; [congruence|done].
Qed.

Lemma dict_update_app d e1 e2 :
  dict_update d (e1 ++ e2) = dict_update (dict_update d e1) e2.
Proof. apply fold_left_app. Qed.

Lemma dict_set_update d e k v :
  k ∈ keys d → k ∉ keys e →
  dict_set (dict_update d e) k v = dict_update (dict_set d k v) e.
Proof.
  revert d. induction e as [|[k1 v1] e IH]; intros d Hin Hout; [done|].
  simpl in Hout. apply not_elem_of_cons in Hout as [Hne Hout].
  rewrite !dict_update_cons, IH; [|apply dict_set_keys; auto|done].
  by rewrite dict_set_comm.
Qed.

(** Updating with a dictionary that received one more assignment. *)
Lemma dict_update_set d e k v :
  NoDup (keys e) →
  dict_update d (dict_set e k v) = dict_set (dict_update d e) k v.
Proof.
  revert d. induction e as [|[k' v'] e IH]; intros d Hnd; [done|].
  simpl in Hnd. apply NoDup_cons in Hnd as [Hout Hnd]. simpl.
  destruct (decide (k' = k)) as [->|Hne].
  - rewrite !dict_update_cons.
    rewrite <- (dict_set_set d k v v') at 1.
    symmetry. apply dict_set_update; [|done]. apply dict_set_keys. auto.
  - rewrite !dict_update_cons. by apply IH.
Qed.

(** Merging the dictionary built from [xs] is assigning [xs] in order. *)
Lemma dict_update_update d e xs :
  NoDup (keys e) →
  dict_update d (dict_update e xs) = dict_update (dict_update d e) xs.
Proof.
  revert e. induction xs as [|[k v] xs IH]; intros e Hnd; [done|].
  rewrite !dict_update_cons, IH by by apply dict_set_NoDup.
  by rewrite dict_update_set.
Qed.

Lemma dict_update_build d xs :
  dict_update d (dict_update [] xs) = dict_update d xs.
Proof. rewrite dict_update_update; [done|apply NoDup_nil_2]. Qed.



(** Without a repeated key, the dictionary built from [xs] is [xs]. *)
Lemma dict_update_fresh d xs :
  NoDup (keys (d ++ xs)) → dict_update d xs = d ++ xs.
Proof.
  revert d. induction xs as [|[k v] xs IH]; intros d Hnd.
  - by rewrite app_nil_r.
  - rewrite dict_update_cons, dict_set_notin.
    + rewrite (IH (d ++ [(k, v)])); by rewrite <- app_assoc.
    + unfold keys in Hnd. rewrite map_app in Hnd.
      apply NoDup_app in Hnd as (_ & Hd & _). intros Hin.
      apply (Hd k Hin). simpl. apply elem_of_cons. auto.
Qed.

End DictFacts.

(** ** The loops of [flatten] *)

Section FlattenFacts.

Variables dict_sep list_sep : string.

Local Abbreviation flatten := (flatten dict_sep list_sep).
Local Abbreviation flatten_items := (flatten_items dict_sep list_sep).
Local Abbreviation visit := (visit dict_sep list_sep).
Local Abbreviation cur_key := (cur_key dict_sep list_sep).
Local Abbreviation path_key := (path_key dict_sep list_sep).
Local Abbreviation leaf_pairs := (leaf_pairs dict_sep list_sep).

Lemma flatten_dict items parent_key :
  flatten (VDict items) parent_key = flatten_items items parent_key [].
Proof.
  simpl. generalize (@nil (string * scalar)) as fd.
  induction items as [|[k v] rest IH]; intros fd; simpl; [done|].
  destruct (visit _ parent_key k v fd); simpl; [apply IH|done].
Qed.

(** Line 63: a list is handled as the dictionary [dict(enumerate(data))]. *)
Lemma flatten_list elems parent_key :
  flatten (VList elems) parent_key =
  flatten_items (enumerate elems) parent_key [].
Proof.
  simpl. unfold enumerate.
  generalize (@nil (string * scalar)) as fd. generalize 0%Z as i.
  induction elems as [|v rest IH]; intros i fd; simpl; [done|].
  destruct (visit _ parent_key (KInt i) v fd); simpl; [apply IH|done].
Qed.

Lemma leaves_dict items : leaves (VDict items) = leaves_items items.
Proof.
  simpl. induction items as [|[k v] rest IH]; simpl; [done|]. by rewrite IH.
Qed.

Lemma leaves_list elems : leaves (VList elems) = leaves_items (enumerate elems).
Proof.
  simpl. unfold enumerate. generalize 0%Z as i.
  induction elems as [|v rest IH]; intros i; simpl; [done|]. by rewrite IH.
Qed.

Lemma leaves_items_app l1 l2 :
  leaves_items (l1 ++ l2) = leaves_items l1 ++ leaves_items l2.
Proof.
  induction l1 as [|[k v] l1 IH]; simpl; [done|].
  by rewrite IH, app_assoc.
Qed.

Lemma leaf_pairs_app parent_key l1 l2 :
  leaf_pairs parent_key (l1 ++ l2) =
  leaf_pairs parent_key l1 ++ leaf_pairs parent_key l2.
Proof. apply map_app. Qed.

Lemma leaf_pairs_below parent_key k ls :
  leaf_pairs parent_key (map (λ ps, (k :: fst ps, snd ps)) ls) =
  leaf_pairs (cur_key parent_key k) ls.
Proof. unfold leaf_pairs. rewrite map_map. done. Qed.

Lemma flatten_items_scalar k s rest parent_key flat_data :
  flatten_items ((k, VScalar s) :: rest) parent_key flat_data =
  flatten_items rest parent_key (dict_set flat_data (cur_key parent_key k) s).
Proof. done. Qed.

Lemma flatten_items_container k v rest parent_key flat_data :
  is_container v →
  flatten_items ((k, v) :: rest) parent_key flat_data =
  (sub ← flatten v (cur_key parent_key k);
   flatten_items rest parent_key (dict_update flat_data sub)).
Proof.
  intros Hc. destruct v; [done|..];
    cbn [JsonFlattener.flatten_items JsonFlattener.visit];
    by destruct (flatten _ _).
Qed.

(** What the loop over a dictionary computes, given what the recursive calls
    on its values compute. *)
Lemma flatten_items_leaves_aux items :
  Forall (λ kv, ∀ pk, is_container (snd kv) →
     flatten (snd kv) pk = Ok (dict_update [] (leaf_pairs pk (leaves (snd kv)))))
    items →
  ∀ parent_key flat_data,
    flatten_items items parent_key flat_data =
    Ok (dict_update flat_data (leaf_pairs parent_key (leaves_items items))).
Proof.
  induction 1 as [|[k v] rest Hv _ IH]; intros parent_key fd; [done|].
  simpl in *. rewrite leaf_pairs_app, leaf_pairs_below, dict_update_app.
  destruct v as [s|items'|elems'].
  - simpl. apply IH.
  - unfold JsonFlattener.visit. rewrite (Hv _ I). simpl.
    rewrite dict_update_build. apply IH.
  - unfold JsonFlattener.visit. rewrite (Hv _ I). simpl.
    rewrite dict_update_build. apply IH.
Qed.

(** [flatten] assigns the leaves of [data], in iteration order, each under
    its flattened key. *)
Lemma flatten_container_leaves data :
  ∀ parent_key, is_container data →
    flatten data parent_key =
    Ok (dict_update [] (leaf_pairs parent_key (leaves data))).
Proof.
  induction data as [s|items IH|elems IH] using value_ind; intros pk Hc.
  - done.
  - rewrite flatten_dict, leaves_dict.
    by apply flatten_items_leaves_aux.
  - rewrite flatten_list, leaves_list.
    apply flatten_items_leaves_aux. unfold enumerate. clear Hc.
    generalize 0%Z as i. induction IH as [|v rest Hv _ IH']; intros i; simpl.
    + constructor.
    + constructor; [exact Hv|apply IH'].
Qed.

Lemma flatten_items_leaves items parent_key flat_data :
  flatten_items items parent_key flat_data =
  Ok (dict_update flat_data (leaf_pairs parent_key (leaves_items items))).
Proof.
  apply flatten_items_leaves_aux, Forall_forall.
  intros kv _ pk. apply flatten_container_leaves.
Qed.

Lemma leaves_items_of data :
  is_container data → leaves data = leaves_items (items_of data).
Proof.
  destruct data; [done|intros _; apply leaves_dict|intros _; apply leaves_list].
Qed.

Lemma leaves_items_scalar items k s :
  (k, VScalar s) ∈ items → ([k], s) ∈ leaves_items items.
Proof.
  induction items as [|[k' v'] rest IH]; intros Hin.
  - by apply elem_of_nil in Hin.
  - simpl. apply elem_of_app. apply elem_of_cons in Hin as [Heq|Hin].
    + injection Heq as <- <-. left. simpl. apply list_elem_of_singleton. done.
    + right. by apply IH.
Qed.

Lemma keys_leaf_pairs parent_key ls k :
  k ∈ keys (leaf_pairs parent_key ls) ↔
  ∃ p s, (p, s) ∈ ls ∧ path_key parent_key p = k.
Proof.
  unfold keys, leaf_pairs. rewrite map_map, list_elem_of_fmap. simpl. split.
  - intros ([p s] & -> & Hin). eauto.
  - intros (p & s & Hin & <-). by exists (p, s).
Qed.

End FlattenFacts.

(** ** The leaves of a value are its scalars, each at its path *)

Lemma enumerate_from_elem j elems k c :
  (k, c) ∈ enumerate_from j elems ↔
  ∃ i : nat, k = KInt (j + Z.of_nat i) ∧ elems !! i = Some c.
Proof.
  revert j. induction elems as [|x elems IH]; intros j; simpl.
  - rewrite elem_of_nil. split; [done|]. by intros (i & _ & Hi).
  - rewrite elem_of_cons, IH. split.
    + intros [Heq|(i & -> & Hi)].
      * injection Heq as -> ->. exists 0%nat. by rewrite Z.add_0_r.
      * exists (S i). split; [f_equal; lia|done].
    + intros ([|i] & -> & Hi).
      * left. injection Hi as ->. by rewrite Z.add_0_r.
      * right. exists i. split; [f_equal; lia|done].
Qed.

Lemma leaves_items_elem items p' s :
  (p', s) ∈ leaves_items items ↔
  ∃ k c p, p' = k :: p ∧ (k, c) ∈ items ∧ (p, s) ∈ leaves c.
Proof.
  induction items as [|[k c] items IH]; simpl.
  - rewrite elem_of_nil. split; [done|].
    intros (k & c & p & _ & Hin & _). by apply elem_of_nil in Hin.
  - rewrite elem_of_app, list_elem_of_fmap, IH. split.
    + intros [([p s'] & Heq & Hin)|(k' & c' & p & -> & Hin & Hl)].
      * injection Heq as -> ->. exists k, c, p.
        split; [done|]. split; [apply elem_of_cons; by left|done].
      * exists k', c', p. split; [done|].
        split; [apply elem_of_cons; by right|done].
    + intros (k' & c' & p & -> & Hin & Hl).
      apply elem_of_cons in Hin as [Heq|Hin].
      * injection Heq as -> ->. left. by exists (p, s).
      * right. by exists k', c', p.
Qed.

Lemma leaves_at_path v :
  ∀ p s, (p, s) ∈ leaves v ↔ at_path v p (VScalar s).
Proof.
  induction v as [s0|items IH|elems IH] using value_ind; intros p s.
  - simpl. rewrite list_elem_of_singleton. split.
    + intros [= -> ->]. constructor.
    + by inversion 1.
  - rewrite leaves_dict, leaves_items_elem.
    rewrite Forall_forall in IH. split.
    + intros (k & c & p0 & -> & Hin & Hl).
      apply (at_key _ _ c); [done|]. by apply (IH (k, c)).
    + inversion 1 as [|items' k c p0 x Hin Hc|]; subst.
      exists k, c, p0. split; [done|]. split; [done|]. by apply (IH (k, c)).
  - rewrite leaves_list, leaves_items_elem.
    rewrite Forall_forall in IH. split.
    + intros (k & c & p0 & -> & Hin & Hl).
      apply enumerate_from_elem in Hin as (i & -> & Hi).
      rewrite Z.add_0_l. apply (at_index _ _ c); [done|].
      apply IH; [|done]. by apply list_elem_of_lookup_2 in Hi.
    + inversion 1 as [| |elems' i c p0 x Hi Hc]; subst.
      exists (KInt (Z.of_nat i)), c, p0. split; [done|]. split.
      * apply enumerate_from_elem. exists i. by rewrite Z.add_0_l.
      * apply IH; [|done]. by apply list_elem_of_lookup_2 in Hi.
Qed.

(** Every key of the flattened mapping of an object or array is the
    flattened key of a path that ends at a scalar, and conversely. *)
Lemma flatten_keys_at_path dict_sep list_sep data parent_key k :
  is_container data →
  k ∈ keys (dict_update [] (leaf_pairs dict_sep list_sep parent_key
                               (leaves data))) ↔
  ∃ p s, at_path data p (VScalar s) ∧
         path_key dict_sep list_sep parent_key p = k.
Proof.
  intros Hc. rewrite dict_update_keys, keys_leaf_pairs. simpl.
  rewrite elem_of_nil. split.
  - intros [[]|(p & s & Hin & Hk)]. exists p, s.
    split; [by apply leaves_at_path|done].
  - intros (p & s & Hat & Hk). right. exists p, s.
    split; [by apply leaves_at_path|done].
Qed.

(** ** Properties of [flatten] *)

(** C1 (as the code has it): with the default separators, flattening the
    top-level array [[{"a": 1}, {"a": 2}]] with an empty parent key gives
    [{"0.a": 1, "1.a": 2}]: the separator before the segment [a] is the one
    of an object key.  A top-level array is flattened exactly as the object
    keyed by its indices. *)
Theorem flatten_top_level_array :
  flatten "." "__" doc_array_of_objects "" =
    Ok [("0.a", SInt 1); ("1.a", SInt 2)] ∧
  ∀ dict_sep list_sep elems parent_key,
    flatten dict_sep list_sep (VList elems) parent_key =
    flatten dict_sep list_sep (VDict (enumerate elems)) parent_key.
Proof.
  split; [reflexivity|]. intros. by rewrite flatten_list, flatten_dict.
Qed.

(** C1 as stated fails: the result is not [{"0__a": 1, "1__a": 2}], and it
    has no key ["0__a"]. *)
Lemma flatten_top_level_array_not_list_sep :
  flatten "." "__" doc_array_of_objects "" ≠
    Ok [("0__a", SInt 1); ("1__a", SInt 2)] ∧
  (d ← flatten "." "__" doc_array_of_objects ""; Ok (dict_get d "0__a")) =
    Ok None.
Proof. split; [discriminate|reflexivity]. Qed.


(** C7: [{}], [[]] and a bare scalar flatten to the empty mapping; at any
    parent key and with any mapping accumulated so far, an item whose value
    is an empty object or array leaves the mapping as it is, so that a
    dictionary flattens as it does without that item; and every key of a
    flattened mapping is the key of a path that ends at a scalar, at
    whatever depth: a path that ends at an empty object or array gives
    none. *)
Theorem flatten_empty dict_sep list_sep :
  flatten dict_sep list_sep (VDict []) "" = Ok [] ∧
  flatten dict_sep list_sep (VList []) "" = Ok [] ∧
  (∀ s, flatten dict_sep list_sep (VScalar s) "" = Ok []) ∧
  (∀ parent_key k flat_data,
     visit dict_sep list_sep (flatten dict_sep list_sep) parent_key k
       (VDict []) flat_data = Ok flat_data ∧
     visit dict_sep list_sep (flatten dict_sep list_sep) parent_key k
       (VList []) flat_data = Ok flat_data) ∧
  (∀ parent_key items1 k items2,
     flatten dict_sep list_sep (VDict (items1 ++ (k, VDict []) :: items2))
       parent_key =
     flatten dict_sep list_sep (VDict (items1 ++ items2)) parent_key ∧
     flatten dict_sep list_sep (VDict (items1 ++ (k, VList []) :: items2))
       parent_key =
     flatten dict_sep list_sep (VDict (items1 ++ items2)) parent_key) ∧
  (∀ data d k,
     flatten dict_sep list_sep data "" = Ok d → k ∈ keys d →
     ∃ p s, at_path data p (VScalar s) ∧
            path_key dict_sep list_sep "" p = k).
Proof.
  repeat split; try reflexivity.
  - rewrite !flatten_dict, !flatten_items_leaves.
    by rewrite !leaves_items_app.
  - rewrite !flatten_dict, !flatten_items_leaves.
    by rewrite !leaves_items_app.
  - intros data d k Hd Hk. destruct data as [s|items|elems].
    + injection Hd as <-. by apply elem_of_nil in Hk.
    + apply (flatten_keys_at_path dict_sep list_sep (VDict items) "" k I).
      rewrite flatten_container_leaves in Hd by done. congruence.
    + apply (flatten_keys_at_path dict_sep list_sep (VList elems) "" k I).
      rewrite flatten_container_leaves in Hd by done. congruence.
Qed.

Lemma flatten_empty_witness :
  ∃ p s, at_path doc_object_of_array p (VScalar s) ∧
         path_key "." "__" "" p = "a__1".
Proof.
  apply (proj2 (proj2 (proj2 (proj2 (proj2 (flatten_empty "." "__")))))
           doc_object_of_array [("a__0", SInt 1); ("a__1", SInt 2)] "a__1").
  - reflexivity.
  - compute_done.
Defined.

Lemma leaf_pairs_flat dict_sep list_sep (m : pydict) :
  leaf_pairs dict_sep list_sep ""
    (leaves_items (map (λ ks, (KStr (fst ks), VScalar (snd ks))) m)) = m.
Proof.
  induction m as [|[k s] m IH]; [done|]. simpl. f_equal. exact IH.
Qed.

(** C8: a flat mapping with string keys and scalar values flattens to
    itself. *)
Theorem flatten_flat_idempotent dict_sep list_sep (m : pydict) :
  NoDup (keys m) →
  flatten dict_sep list_sep (flat_value m) "" = Ok m.
Proof.
  intros Hnd. unfold flat_value.
  rewrite flatten_dict, flatten_items_leaves, leaf_pairs_flat.
  f_equal. by apply (dict_update_fresh []).
Qed.

Lemma flatten_flat_idempotent_witness :
  NoDup (keys doc_flat) ∧ flatten "." "__" (flat_value doc_flat) "" = Ok doc_flat.
Proof.
  assert (H : NoDup (keys doc_flat)) by compute_done.
  split; [exact H|]. apply (flatten_flat_idempotent "." "__" doc_flat H).
Defined.




Lemma leaf_pairs_depth1 dict_sep list_sep items :
  Forall (λ kv, ¬ is_container (snd kv)) items →
  leaf_pairs dict_sep list_sep "" (leaves_items items) =
  flat_map (λ kv, match snd kv with
                  | VScalar s => [(str (fst kv), s)]
                  | _ => []
                  end) items.
Proof.
  induction 1 as [|[k v] rest Hv _ IH]; [done|].
  simpl in *. rewrite leaf_pairs_app, IH.
  destruct v; [done|by destruct Hv..].
Qed.

(** C9: with an empty parent key, a scalar under the top-level key or index
    [k] is stored under the key [str(k)], whatever the two separators are;
    a document with scalars only at its top level flattens to the same
    mapping under any two choices of separators. *)
Theorem flatten_depth1_keys dict_sep list_sep dict_sep' list_sep' data k s :
  (k, VScalar s) ∈ items_of data →
  cur_key dict_sep list_sep "" k = str k ∧
  (∃ d d', flatten dict_sep list_sep data "" = Ok d ∧
           flatten dict_sep' list_sep' data "" = Ok d' ∧
           str k ∈ keys d ∧ str k ∈ keys d') ∧
  (Forall (λ kv, ¬ is_container (snd kv)) (items_of data) →
   flatten dict_sep list_sep data "" = flatten dict_sep' list_sep' data "").
Proof.
  intros Hin.
  assert (Hc : is_container data).
  { destruct data; [by apply elem_of_nil in Hin|done..]. }
  split; [reflexivity|]. split.
  - do 2 eexists. rewrite !flatten_container_leaves by done.
    do 2 (split; [reflexivity|]).
    rewrite !dict_update_keys, !keys_leaf_pairs, leaves_items_of by done.
    split; right; exists [k], s; (split; [by apply leaves_items_scalar|done]).
  - intros Hflat. rewrite !flatten_container_leaves by done.
    rewrite leaves_items_of by done. by rewrite !leaf_pairs_depth1.
Qed.

Lemma flatten_depth1_keys_witness :
  (KInt 1, VScalar (SStr "x")) ∈
    items_of (VList [VList [VScalar SNone]; VScalar (SStr "x")]) ∧
  ∃ d d',
    flatten "." "__" (VList [VList [VScalar SNone]; VScalar (SStr "x")]) "" =
      Ok d ∧
    flatten "/" "#" (VList [VList [VScalar SNone]; VScalar (SStr "x")]) "" =
      Ok d' ∧
    "1" ∈ keys d ∧ "1" ∈ keys d'.
Proof.
  assert (H : (KInt 1, VScalar (SStr "x")) ∈
    items_of (VList [VList [VScalar SNone]; VScalar (SStr "x")])).
  { simpl. apply list_elem_of_In. simpl. right. left. reflexivity. }
  split; [exact H|].
  exact (proj1 (proj2 (flatten_depth1_keys "." "__" "/" "#" _ _ _ H))).
Defined.

(** ** The standard library on small inputs *)

Section LibraryExamples.

Import Demo.

(** A row shorter than the header is completed with [None]; the cells of a
    longer row go under the key [None]. *)
Example dict_reader_short_and_long_rows :
  Csv.DictReader ("a,b" +:+ nl +:+ "1" +:+ nl +:+ "1,2,3" +:+ nl) =
  Ok [[(KStr "a", VScalar (SStr "1")); (KStr "b", VScalar SNone)];
      [(KStr "a", VScalar (SStr "1")); (KStr "b", VScalar (SStr "2"));
       (KNone, VList [VScalar (SStr "3")])]].
Proof. vm_compute. reflexivity. Qed.

(** A quoted cell keeps its comma; an empty line is skipped. *)
Example dict_reader_quoted :
  Csv.DictReader ("a,b" +:+ nl +:+ nl +:+ quoted "x,y" +:+ ",z" +:+ nl) =
  Ok [[(KStr "a", VScalar (SStr "x,y")); (KStr "b", VScalar (SStr "z"))]].
Proof. vm_compute. reflexivity. Qed.

Example loads_doc : JsonLoad.loads doc_json = Ok doc_object_of_array.
Proof. vm_compute. reflexivity. Qed.

(** Of a repeated key, the last value stays. *)
Example loads_repeated_key :
  JsonLoad.loads ("{" +:+ quoted "a" +:+ ": 1, " +:+ quoted "b" +:+
                  ": [], " +:+ quoted "a" +:+ ": null}") =
  Ok (VDict [(KStr "a", VScalar SNone); (KStr "b", VList [])]).
Proof. vm_compute. reflexivity. Qed.

Example loads_trailing_comma :
  JsonLoad.loads "[1,]" = Raise (JsonLoad.error "Expecting value").
Proof. vm_compute. reflexivity. Qed.

End LibraryExamples.

(** ** Files *)

Section FileFacts.

Import OS.



End FileFacts.

(** [flatten] with an empty parent key returns a mapping for every value. *)
Lemma flatten_total dict_sep list_sep data :
  ∃ d, flatten dict_sep list_sep data "" = Ok d.
Proof.
  destruct data as [s|items|elems].
  - by exists [].
  - eexists. by apply flatten_container_leaves.
  - eexists. by apply flatten_container_leaves.
Qed.

(** ** Properties of the two tools *)

Section Tools.

Import OS.

(** C3 (what the code does): when the gate on the destination passes and
    the table read from the source has no row, [convert()] raises the
    [RuntimeError] of its last [except] clause, which wraps the message of
    its own [ValueError]; it does not raise that [ValueError]. Nothing is
    written. *)
Theorem convert_empty_is_wrapped (self : Csv2JsonConverter.t) (st : fs) text :
  exists_ st (Csv2JsonConverter._destination self) &&
    negb (Csv2JsonConverter._over_write self) = false →
  read_text st (Csv2JsonConverter._source self) = Ok text →
  Csv.DictReader text = Ok [] →
  Csv2JsonConverter.convert self st =
    (Raise (Exn RuntimeError
       ("Unexpected error during conversion: The source file '" +:+
        path_str (Csv2JsonConverter._source self) +:+
        "' is empty. Nothing to convert.")), st).
Proof.
  intros Hgate Hread Hrows.
  unfold Csv2JsonConverter.convert, Csv2JsonConverter.convert_body.
  rewrite Hgate, Hread, Hrows. reflexivity.
Qed.

Lemma convert_empty_is_wrapped_witness :
  Csv2JsonConverter.convert
    (Csv2JsonConverter.Make Demo.src_csv Demo.dst_json false) Demo.fs_header =
  (Raise (Exn RuntimeError
     "Unexpected error during conversion: The source file 'people.csv' is empty. Nothing to convert."),
   Demo.fs_header).
Proof.
  apply (convert_empty_is_wrapped
           (Csv2JsonConverter.Make Demo.src_csv Demo.dst_json false)
           Demo.fs_header (Text.universal_newlines Demo.header_csv)).
  - vm_compute. reflexivity.
  - vm_compute. reflexivity.
  - vm_compute. reflexivity.
Defined.

Lemma make_record_same_length fieldnames row :
  NoDup fieldnames → length row = length fieldnames →
  Csv.make_record fieldnames row =
  zip (map KStr fieldnames) (map Csv.cell row).
Proof.
  intros Hnd Hlen. unfold Csv.make_record.
  rewrite Hlen, Nat.ltb_irrefl.
  apply (dict_update_fresh []). simpl. unfold keys.
  rewrite fst_zip by (rewrite !length_map; lia).
  apply NoDup_fmap_2; [|done]. intros x y. congruence.
Qed.

(** C5: the table with the header [name,age] and the row [alice,30] (with
    either line ending) is converted to
    [[{"name": "alice", "age": "30"}]], written with an indentation of two
    spaces; a row with as many cells as the header has
    (distinct) names becomes the object of its cells, each a string, under
    the names in the order of the header. *)
Theorem convert_people :
  Csv.DictReader Demo.people_csv = Ok Demo.people_rows ∧
  Csv.DictReader (Text.universal_newlines Demo.people_csv_crlf) =
    Ok Demo.people_rows ∧
  (let r := Csv2JsonConverter.convert
              (Csv2JsonConverter.Make Demo.src_csv Demo.dst_json false)
              Demo.fs_people in
   fst r = Ok () ∧ contents (snd r) Demo.dst_json = Some Demo.people_json) ∧
  ∀ fieldnames row,
    NoDup fieldnames → length row = length fieldnames →
    Csv.make_record fieldnames row =
    zip (map KStr fieldnames) (map (λ s, VScalar (SStr s)) row).
Proof.
  split; [vm_compute; reflexivity|]. split; [vm_compute; reflexivity|].
  split.
  - vm_compute. split; reflexivity.
  - apply make_record_same_length.
Qed.

Lemma convert_people_witness :
  Csv.make_record ["name"; "age"] ["alice"; "30"] =
  [(KStr "name", VScalar (SStr "alice")); (KStr "age", VScalar (SStr "30"))].
Proof.
  apply (proj2 (proj2 (proj2 convert_people)) ["name"; "age"] ["alice"; "30"]).
  - compute_done.
  - reflexivity.
Defined.

End Tools.

Section Gate.

Import OS.

Lemma read_text_exists (st : fs) p text :
  read_text st p = Ok text → exists_ st p = true.
Proof.
  unfold read_text, exists_. by destruct (st !! path_str p).
Qed.

Lemma exists_file (st : fs) p f :
  st !! path_str p = Some (NFile f) → exists_ st p = true.
Proof. unfold exists_. by intros ->. Qed.


End Gate.

(** The constructor accepts [True] and [False] for [over_write]; what the
    command line of the converter gives for [--over-write] is a [str], which
    the constructor refuses, so that the command line leaves [over_write]
    at [False] or fails before [convert()] is called. *)
Remark over_write_from_command_line :
  (∀ b, Csv2JsonConverter._set_over_write (Csv2JsonConverter.ABool b) = Ok b) ∧
  Csv2JsonConverter._set_over_write
    (Csv2JsonConverter.parsed_over_write None) = Ok false ∧
  ∀ s, Csv2JsonConverter._set_over_write
         (Csv2JsonConverter.parsed_over_write (Some s)) =
       Raise (Exn TypeError
         "Invalid type for 'over_write': expected 'bool', got 'str'.").
Proof. by repeat split. Qed.

Section GateWitness.

Import OS Demo.


End GateWitness.

(** ** [flatten] on objects in memory: what it leaves untouched *)

Section HeapFacts.

Import Heap.

Variables dict_sep list_sep : string.

Local Abbreviation hflatten := (Heap.flatten dict_sep list_sep).
Local Abbreviation hloop := (Heap.loop dict_sep list_sep).

Lemma preserved_refl h : preserved h h.
Proof. by intros i o. Qed.

Lemma preserved_trans h1 h2 h3 :
  preserved h1 h2 → preserved h2 h3 → preserved h1 h3.
Proof. intros H12 H23 i o Hi. by apply H23, H12. Qed.

Lemma preserved_alloc h o : preserved h (h ++ [o]).
Proof. intros i o' Hi. by apply lookup_app_l_Some. Qed.

Lemma preserved_insert (h0 h : heap) (d : loc) o :
  preserved h0 h → (length h0 ≤ d)%nat → preserved h0 (<[d := o]> h).
Proof.
  intros Hp Hd i o' Hi. rewrite list_lookup_insert_ne; [by apply Hp|].
  apply lookup_lt_Some in Hi. lia.
Qed.

Lemma preserved_store_item (h0 h : heap) (d : loc) k v :
  preserved h0 h → (length h0 ≤ d)%nat → preserved h0 (store_item d k v h).
Proof.
  intros Hp Hd. unfold store_item.
  destruct (h !! d) as [[]|]; try done. by apply preserved_insert.
Qed.

Lemma preserved_update_from (h0 h : heap) (d other : loc) :
  preserved h0 h → (length h0 ≤ d)%nat → preserved h0 (update_from d other h).
Proof.
  intros Hp Hd. unfold update_from.
  destruct (h !! other) as [[| items |]|]; try done.
  clear other. revert h Hp. induction items as [|[k v] items IH]; intros h Hp.
  - done.
  - simpl. apply IH. by apply preserved_store_item.
Qed.

Lemma loop_preserved rec (fd : loc) parent_key items :
  (∀ l k h, preserved h (snd (rec l k h))) →
  ∀ h0 h, preserved h0 h → (length h0 ≤ fd)%nat →
    preserved h0 (snd (hloop rec fd parent_key items h)).
Proof.
  intros Hrec h0. induction items as [|[k v] rest IH]; intros h Hp Hfd.
  - done.
  - simpl. destruct (h !! v) as [[s | items' | elems]|]; [| | |done].
    + apply IH; [|done]. by apply preserved_store_item.
    + specialize (Hrec v (cur_key dict_sep list_sep parent_key k) h).
      destruct (rec v _ h) as [[sub|e] h']; simpl in Hrec.
      * apply IH; [|done]. apply preserved_update_from; [|done].
        by apply (preserved_trans _ h).
      * by apply (preserved_trans _ h).
    + specialize (Hrec (length h)
                    (cur_key dict_sep list_sep parent_key k)
                    (h ++ [ODict (enumerate_locs 0 elems)])).
      simpl.
      destruct (rec (length h) _ _) as [[sub|e] h']; simpl in Hrec.
      * apply IH; [|done]. apply preserved_update_from; [|done].
        apply (preserved_trans _ h); [done|].
        eapply preserved_trans; [apply preserved_alloc|done].
      * apply (preserved_trans _ h); [done|].
        eapply preserved_trans; [apply preserved_alloc|done].
Qed.

(** Whatever the store holds and however the call ends, every object that
    was in the store before the call is in it afterwards, unchanged. *)
Lemma flatten_preserved fuel :
  ∀ data parent_key h, preserved h (snd (hflatten fuel data parent_key h)).
Proof.
  induction fuel as [|fuel IH]; intros data pk h; [apply preserved_refl|].
  simpl. destruct ((h ++ [ODict []]) !! data) as [[s | items | elems]|].
  - destruct (negb (truthy pk)); apply preserved_alloc.
  - apply loop_preserved; [done|apply preserved_alloc|done].
  - apply loop_preserved; [done| |done].
    eapply preserved_trans; apply preserved_alloc.
  - apply preserved_alloc.
Qed.

End HeapFacts.

(** ** [flatten] on objects in memory: what it returns *)

Section HeapRefinement.

Import Heap.

Variables dict_sep list_sep : string.

Local Abbreviation hflatten := (Heap.flatten dict_sep list_sep).
Local Abbreviation hloop := (Heap.loop dict_sep list_sep).
Local Abbreviation pflatten := (JsonFlattener.flatten dict_sep list_sep).
Local Abbreviation pflatten_items :=
  (JsonFlattener.flatten_items dict_sep list_sep).

Lemma repr_dict h items l :
  repr h (VDict items) l ↔
  ∃ litems, h !! l = Some (ODict litems) ∧ items_repr h items litems.
Proof.
  simpl. apply exist_proper; intros litems.
  apply and_iff_compat_l. unfold items_repr.
  revert litems. induction items as [|[k v] items IH]; intros [|[k' l'] litems].
  - split; [constructor|done].
  - split; [done|inversion 1].
  - split; [done|inversion 1].
  - rewrite Forall2_cons, <- IH. simpl. tauto.
Qed.

Lemma repr_list h elems l :
  repr h (VList elems) l ↔
  ∃ locs, h !! l = Some (OList locs) ∧ Forall2 (repr h) elems locs.
Proof.
  simpl. apply exist_proper; intros locs. apply and_iff_compat_l.
  revert locs. induction elems as [|v elems IH]; intros [|l' locs].
  - split; [constructor|done].
  - split; [done|inversion 1].
  - split; [done|inversion 1].
  - rewrite Forall2_cons, <- IH. tauto.
Qed.

Lemma repr_preserved h h' v :
  preserved h h' → ∀ l, repr h v l → repr h' v l.
Proof.
  intros Hp. induction v as [s|items IH|elems IH] using value_ind; intros l.
  - simpl. apply Hp.
  - rewrite !repr_dict. intros (litems & Hl & Hitems).
    exists litems. split; [by apply Hp|]. unfold items_repr in *. clear Hl.
    induction Hitems as [|[k v] [k' l'] items litems [Hk Hv] _ IH'].
    + constructor.
    + apply Forall_cons in IH as [IHv IHrest].
      constructor; [split; [done|by apply IHv]|by apply IH'].
  - rewrite !repr_list. intros (locs & Hl & Helems).
    exists locs. split; [by apply Hp|]. clear Hl.
    induction Helems as [|v l' elems locs Hv _ IH'].
    + constructor.
    + apply Forall_cons in IH as [IHv IHrest].
      constructor; [by apply IHv|by apply IH'].
Qed.

Lemma items_repr_enumerate h elems locs i :
  Forall2 (repr h) elems locs →
  items_repr h (enumerate_from i elems) (enumerate_locs i locs).
Proof.
  intros H. revert i. induction H as [|v l elems locs Hv _ IH]; intros i.
  - constructor.
  - simpl. constructor; [done|apply IH].
Qed.

Lemma depth_dict_lt items n :
  (depth (VDict items) < S n)%nat →
  Forall (λ kv, (depth (snd kv) < n)%nat) items.
Proof.
  simpl. intros H. apply Nat.succ_lt_mono in H. revert H.
  induction items as [|[k v] items IH]; intros H; constructor.
  - simpl. lia.
  - apply IH. lia.
Qed.

Lemma depth_enumerate elems i :
  depth (VDict (enumerate_from i elems)) = depth (VList elems).
Proof.
  simpl. f_equal. revert i.
  induction elems as [|v elems IH]; intros i; simpl; [done|].
  by rewrite IH.
Qed.

Lemma repr_flat_dict_set h d m k (l : loc) s :
  repr_flat h d m → h !! l = Some (OScalar s) →
  repr_flat h (dict_set d (KStr k) l) (dict_set m k s).
Proof.
  intros Hd Hl. unfold repr_flat in *.
  induction Hd as [|[k1 l1] [k2 s2] d m [Hk Hs] Hrest IH]; simpl in *.
  - by repeat constructor.
  - subst k1. destruct (decide (k2 = k)) as [->|Hne].
    + rewrite decide_True by done. by constructor.
    + rewrite decide_False by congruence. by constructor.
Qed.

Lemma repr_flat_update h d m dsub msub :
  repr_flat h d m → repr_flat h dsub msub →
  repr_flat h (dict_update d dsub) (dict_update m msub).
Proof.
  intros Hd Hsub. revert d m Hd.
  induction Hsub as [|[k1 l1] [k2 s2] dsub msub [Hk Hs] _ IH]; intros d m Hd.
  - done.
  - simpl in Hk, Hs. subst k1. rewrite !dict_update_cons. apply IH.
    by apply repr_flat_dict_set.
Qed.

Lemma repr_flat_preserved h h' d m :
  preserved h h' → repr_flat h d m → repr_flat h' d m.
Proof.
  intros Hp Hd. unfold repr_flat. eapply Forall2_impl; [exact Hd|].
  intros kl ks [Hk Hs]. split; [done|by apply Hp].
Qed.

(** Assigning to a dictionary does not change what a scalar is. *)
Lemma repr_flat_insert (h : heap) (fd : loc) x y d m :
  h !! fd = Some (ODict x) →
  repr_flat h d m → repr_flat (<[fd := ODict y]> h) d m.
Proof.
  intros Hfd Hd. unfold repr_flat. eapply Forall2_impl; [exact Hd|].
  intros kl ks [Hk Hs]. split; [done|].
  rewrite list_lookup_insert_ne; [done|]. intros Heq. congruence.
Qed.

Lemma store_items (h : heap) (fd : loc) d items :
  h !! fd = Some (ODict d) →
  fold_left (λ h kv, store_item fd (fst kv) (snd kv) h) items h =
  <[fd := ODict (dict_update d items)]> h.
Proof.
  revert h d. induction items as [|[k v] items IH]; intros h d Hfd.
  - simpl. by rewrite list_insert_id.
  - simpl. unfold store_item at 2. rewrite Hfd.
    rewrite (IH _ (dict_set d k v)).
    + by rewrite list_insert_insert_eq.
    + apply list_lookup_insert_eq. by apply lookup_lt_Some in Hfd.
Qed.

Lemma update_from_spec (h : heap) (fd sub : loc) dfd dsub fdm subm :
  h !! fd = Some (ODict dfd) → h !! sub = Some (ODict dsub) →
  repr_flat h dfd fdm → repr_flat h dsub subm →
  ∃ d', update_from fd sub h = <[fd := ODict d']> h ∧
        repr_flat (<[fd := ODict d']> h) d' (dict_update fdm subm).
Proof.
  intros Hfd Hsub Hd Hs. exists (dict_update dfd dsub). split.
  - unfold update_from. rewrite Hsub. by apply store_items.
  - eapply repr_flat_insert; [done|]. by apply repr_flat_update.
Qed.

(** After a nested call that left the store [h] as [h'] and returned the
    dictionary at [sub]: [flat_data.update(sub)] keeps what the loop
    relies on. *)
Lemma update_after_call (h0 h h' : heap) (fd sub : loc) dfd dsub fdm subm :
  preserved h0 h → preserved h h' → (length h0 ≤ fd)%nat →
  h !! fd = Some (ODict dfd) → repr_flat h dfd fdm →
  h' !! sub = Some (ODict dsub) → repr_flat h' dsub subm →
  ∃ d', preserved h0 (update_from fd sub h') ∧
        update_from fd sub h' !! fd = Some (ODict d') ∧
        repr_flat (update_from fd sub h') d' (dict_update fdm subm).
Proof.
  intros Hp0 Hp Hfd0 Hfd Hd Hsub Hs.
  destruct (update_from_spec h' fd sub dfd dsub fdm subm) as (d' & -> & Hd');
    [by apply Hp|done|by apply (repr_flat_preserved h)|done|].
  exists d'. split; [|split; [|done]].
  - apply preserved_insert; [|done]. by apply (preserved_trans _ h).
  - apply list_lookup_insert_eq. apply Hp in Hfd.
    by apply lookup_lt_Some in Hfd.
Qed.

(** What a call must do for the loop to be right: [rec] is [flatten] with
    enough fuel for values of a depth below [n]. *)
Definition refines (n : nat) (rec : loc → string → heap → result loc * heap) :
    Prop :=
  ∀ v l pk (h : heap) flat,
    repr h v l → (depth v < n)%nat → pflatten v pk = Ok flat →
    ∃ (r : loc) h' d,
      rec l pk h = (Ok r, h') ∧ (length h ≤ r)%nat ∧
      h' !! r = Some (ODict d) ∧ repr_flat h' d flat.

Lemma loop_refines n rec (h0 : heap) (fd : loc) parent_key :
  refines n rec →
  (∀ l k h, preserved h (snd (rec l k h))) →
  (length h0 ≤ fd)%nat →
  ∀ items litems,
    items_repr h0 items litems →
    Forall (λ kv, (depth (snd kv) < n)%nat) items →
    ∀ (h : heap) dfd fdm flat,
      preserved h0 h → h !! fd = Some (ODict dfd) → repr_flat h dfd fdm →
      pflatten_items items parent_key fdm = Ok flat →
      ∃ h' d', hloop rec fd parent_key litems h = (Ok fd, h') ∧
               h' !! fd = Some (ODict d') ∧ repr_flat h' d' flat.
Proof.
  intros Hrec Hrecp Hfd0 items litems Hitems.
  induction Hitems as [|[k v] [k' lv] items litems [Hk Hv] _ IH];
    intros Hdepth h dfd fdm flat Hp Hfd Hd Hflat.
  - injection Hflat as <-. by exists h, dfd.
  - simpl in Hk, Hv. subst k'. apply Forall_cons in Hdepth as [Hdv Hdepth].
    simpl in Hdv. specialize (IH Hdepth).
    assert (Hv' : repr h v lv) by by apply (repr_preserved h0).
    assert (Hlt : (fd < length h)%nat) by by apply lookup_lt_Some in Hfd.
    simpl.
    set (ck := cur_key dict_sep list_sep parent_key k) in *.
    destruct v as [s|items'|elems].
    + (* a scalar is stored *)
      simpl in Hv'. rewrite Hv'. rewrite flatten_items_scalar in Hflat.
      unfold store_item. rewrite Hfd.
      apply (IH _ (dict_set dfd (KStr ck) lv) (dict_set fdm ck s)).
      * by apply preserved_insert.
      * by apply list_lookup_insert_eq.
      * eapply repr_flat_insert; [done|]. by apply repr_flat_dict_set.
      * done.
    + (* a dictionary is flattened by a nested call *)
      destruct (proj1 (repr_dict _ _ _) Hv') as (litems' & Hlv & _).
      rewrite Hlv.
      rewrite flatten_items_container in Hflat by done. fold ck in Hflat.
      destruct (pflatten (VDict items') ck) as [subm|e] eqn:Hsub;
        [|discriminate Hflat].
      cbn [mbind result_bind Py.bind] in Hflat.
      destruct (Hrec _ _ _ _ _ Hv' Hdv Hsub)
        as (r & h' & d & Hcall & _ & Hr & Hrd).
      pose proof (Hrecp lv ck h) as Hpres. rewrite Hcall in Hpres |- *.
      destruct (update_after_call h0 h h' fd r dfd d fdm subm)
        as (d' & Hp' & Hfd' & Hd'); try done.
      by apply (IH _ d' (dict_update fdm subm)).
    + (* a list becomes a new dictionary, flattened by a nested call *)
      destruct (proj1 (repr_list _ _ _) Hv') as (locs & Hlv & Helems).
      rewrite Hlv. simpl.
      set (h1 := h ++ [ODict (enumerate_locs 0 locs)]).
      assert (Hp1 : preserved h h1) by apply preserved_alloc.
      assert (Hnew : repr h1 (VDict (enumerate elems)) (length h)).
      { apply repr_dict. exists (enumerate_locs 0 locs). split.
        - unfold h1. by rewrite list_lookup_middle.
        - apply items_repr_enumerate.
          eapply Forall2_impl; [exact Helems|].
          intros ? ?. by apply repr_preserved. }
      rewrite flatten_items_container in Hflat by done. fold ck in Hflat.
      destruct (pflatten (VList elems) ck) as [subm|e] eqn:Hsub;
        [|discriminate Hflat].
      cbn [mbind result_bind Py.bind] in Hflat.
      rewrite flatten_list, <- flatten_dict in Hsub.
      assert (Hdn : (depth (VDict (enumerate elems)) < n)%nat).
      { unfold enumerate. by rewrite depth_enumerate. }
      destruct (Hrec _ _ _ _ _ Hnew Hdn Hsub)
        as (r & h' & d & Hcall & _ & Hr & Hrd).
      pose proof (Hrecp (length h) ck h1) as Hpres.
      rewrite Hcall in Hpres |- *.
      destruct (update_after_call h0 h h' fd r dfd d fdm subm)
        as (d' & Hp' & Hfd' & Hd'); try done.
      { by apply (preserved_trans _ h1). }
      by apply (IH _ d' (dict_update fdm subm)).
Qed.

(** With fuel for the depth of the value, the method on the store returns
    the dictionary that the method on values returns. *)
Lemma flatten_refines fuel : refines fuel (hflatten fuel).
Proof.
  induction fuel as [|fuel IH]; intros v l pk h flat Hv Hdepth Hflat; [lia|].
  simpl.
  set (h1 := h ++ [ODict []]).
  assert (Hp1 : preserved h h1) by apply preserved_alloc.
  assert (Hfd : h1 !! length h = Some (ODict [])).
  { unfold h1. by rewrite list_lookup_middle. }
  destruct v as [s|items|elems].
  - simpl in Hv. apply Hp1 in Hv. fold h1. rewrite Hv. simpl in Hflat.
    destruct (negb (truthy pk)); [|discriminate Hflat].
    injection Hflat as <-. exists (length h), h1, [].
    split; [done|]. split; [done|]. split; [done|constructor].
  - destruct (proj1 (repr_dict _ _ _) Hv) as (litems & Hl & Hitems).
    apply Hp1 in Hl. fold h1. rewrite Hl. rewrite flatten_dict in Hflat.
    destruct (loop_refines fuel (hflatten fuel) h (length h) pk IH
                (flatten_preserved dict_sep list_sep fuel) (le_n _)
                items litems Hitems (depth_dict_lt _ _ Hdepth)
                h1 [] [] flat Hp1 Hfd (List.Forall2_nil _) Hflat)
      as (h' & d' & Hloop & Hd' & Hrd).
    exists (length h), h', d'. by rewrite Hloop.
  - destruct (proj1 (repr_list _ _ _) Hv) as (locs & Hl & Helems).
    apply Hp1 in Hl. fold h1. rewrite Hl. simpl.
    set (h2 := h1 ++ [ODict (enumerate_locs 0 locs)]).
    assert (Hp2 : preserved h h2).
    { eapply preserved_trans; [exact Hp1|apply preserved_alloc]. }
    rewrite flatten_list in Hflat.
    rewrite <- depth_enumerate with (i := 0%Z) in Hdepth.
    destruct (loop_refines fuel (hflatten fuel) h (length h) pk IH
                (flatten_preserved dict_sep list_sep fuel) (le_n _)
                (enumerate elems) (enumerate_locs 0 locs)
                (items_repr_enumerate _ _ _ _ Helems)
                (depth_dict_lt _ _ Hdepth)
                h2 [] [] flat Hp2
                (preserved_alloc h1 _ _ _ Hfd) (List.Forall2_nil _) Hflat)
      as (h' & d' & Hloop & Hd' & Hrd).
    exists (length h), h', d'. by rewrite Hloop.
Qed.

End HeapRefinement.

(** ** Termination and the input of [flatten] *)

Section HeapClaims.

Import Heap.

(** C10: for a value held in the store, [flatten] with an empty parent key
    and fuel for the depth of the value returns a new dictionary, the one
    that the method on values gives; every object that was in the store is
    unchanged, and the store still holds the value. *)
Theorem flatten_terminates_input_unchanged dict_sep list_sep
    (h : heap) (l : loc) (v : value) (fuel : nat) :
  repr h v l → (depth v < fuel)%nat →
  ∃ (r : loc) (h' : heap) d flat,
    Heap.flatten dict_sep list_sep fuel l "" h = (Ok r, h') ∧
    JsonFlattener.flatten dict_sep list_sep v "" = Ok flat ∧
    h' !! r = Some (ODict d) ∧ repr_flat h' d flat ∧
    h !! r = None ∧
    preserved h h' ∧ repr h' v l.
Proof.
  intros Hv Hdepth.
  destruct (flatten_total dict_sep list_sep v) as [flat Hflat].
  destruct (flatten_refines dict_sep list_sep fuel v l "" h flat Hv Hdepth Hflat)
    as (r & h' & d & Hcall & Hfresh & Hr & Hrd).
  pose proof (flatten_preserved dict_sep list_sep fuel l "" h) as Hp.
  rewrite Hcall in Hp. simpl in Hp.
  exists r, h', d, flat. repeat split; try done.
  - by apply lookup_ge_None.
  - by apply (repr_preserved h).
Qed.

Lemma flatten_terminates_input_unchanged_witness :
  ∃ (r : loc) (h' : heap) d,
    Heap.flatten "." "__" 3 3%nat "" heap_doc = (Ok r, h') ∧
    h' !! r = Some (ODict d) ∧
    repr_flat h' d [("a__0", SInt 1); ("a__1", SInt 2)] ∧
    preserved heap_doc h' ∧ repr h' doc_object_of_array 3%nat.
Proof.
  assert (Hv : repr heap_doc doc_object_of_array 3%nat).
  { simpl. eexists. split; [reflexivity|]. split; [reflexivity|].
    split; [|exact I]. eexists. split; [reflexivity|]. simpl. tauto. }
  assert (Hd : (depth doc_object_of_array < 3)%nat) by (simpl; lia).
  destruct (flatten_terminates_input_unchanged "." "__" heap_doc 3%nat
              doc_object_of_array 3 Hv Hd)
    as (r & h' & d & flat & Hcall & Hflat & Hr & Hrd & _ & Hp & Hv').
  vm_compute in Hflat. injection Hflat as <-.
  exists r, h', d. repeat split; done.
Defined.

(** On a list that contains itself the nested calls use up any fuel: the
    call raises [RecursionError], and the list is as it was. *)
Example flatten_cycle :
  ∃ h', Heap.flatten "." "__" 50 0%nat "" heap_cycle =
          (Raise (Exn RecursionError "maximum recursion depth exceeded"), h') ∧
        h' !! 0%nat = Some (OList [0%nat]).
Proof. eexists. split; vm_compute; reflexivity. Qed.

End HeapClaims.

(** * Further properties *)

(** ** Strings *)

Section StringFacts.

Lemma string_app_cons (x : ascii) (a b : string) :
  String x a +:+ b = String x (a +:+ b).
Proof. reflexivity. Qed.

Lemma string_app_assoc (a b c : string) : (a +:+ b) +:+ c = a +:+ (b +:+ c).
Proof.
  induction a as [|x a IH]; [done|]. rewrite !string_app_cons. by f_equal.
Qed.

Lemma string_app_nil_r (a : string) : a +:+ "" = a.
Proof.
  induction a as [|x a IH]; [done|]. rewrite string_app_cons. by f_equal.
Qed.

Lemma string_length_app (a b : string) :
  String.length (a +:+ b) = (String.length a + String.length b)%nat.
Proof.
  induction a as [|x a IH]; [done|]. rewrite string_app_cons. simpl.
  by rewrite IH.
Qed.

Lemma truthy_spec (s : string) : truthy s = true ↔ s ≠ "".
Proof. destruct s; simpl; split; congruence. Qed.

Lemma truthy_app_r (a b : string) : truthy b = true → truthy (a +:+ b) = true.
Proof. by destruct a. Qed.

End StringFacts.

(** ** Dictionaries, continued *)

Section DictMore.

Context {K V : Type} `{EqDecision K}.
Implicit Types (d e : list (K * V)) (k : K) (v : V).

Lemma dict_set_length d k v :
  (length (dict_set d k v) ≤ S (length d))%nat.
Proof.
  induction d as [|[k' v'] d IH]; simpl; [lia|].
  destruct (decide (k' = k)); simpl; lia.
Qed.

Lemma dict_update_length d e :
  (length (dict_update d e) ≤ length d + length e)%nat.
Proof.
  revert d. induction e as [|[k v] e IH]; intros d; [simpl; lia|].
  rewrite dict_update_cons. specialize (IH (dict_set d k v)).
  pose proof (dict_set_length d k v). simpl length. lia.
Qed.

(** Renaming the keys by an injective function commutes with
    assignment. *)
Lemma dict_set_rename (f : K → K) d k v :
  Inj (=) (=) f →
  dict_set (map (λ kv, (f (fst kv), snd kv)) d) (f k) v =
  map (λ kv, (f (fst kv), snd kv)) (dict_set d k v).
Proof.
  intros Hf. induction d as [|[k' v'] d IH]; simpl; [done|].
  destruct (decide (k' = k)) as [->|Hne].
  - by rewrite decide_True.
  - rewrite decide_False by (intros Heq; by apply Hf in Heq).
    simpl. by rewrite IH.
Qed.

Lemma dict_update_rename (f : K → K) d e :
  Inj (=) (=) f →
  dict_update (map (λ kv, (f (fst kv), snd kv)) d)
              (map (λ kv, (f (fst kv), snd kv)) e) =
  map (λ kv, (f (fst kv), snd kv)) (dict_update d e).
Proof.
  intros Hf. revert d. induction e as [|[k v] e IH]; intros d; [done|].
  simpl map at 2. rewrite !dict_update_cons. simpl.
  by rewrite dict_set_rename, IH.
Qed.

End DictMore.

(** ** [flatten], continued *)

Section FlattenMore.

Variables dict_sep list_sep : string.

Local Abbreviation flatten := (JsonFlattener.flatten dict_sep list_sep).
Local Abbreviation cur_key := (JsonFlattener.cur_key dict_sep list_sep).
Local Abbreviation path_key := (path_key dict_sep list_sep).
Local Abbreviation leaf_pairs := (leaf_pairs dict_sep list_sep).

(** What [flatten] returns for any parent key: the leaves assigned in
    order for an object or array; for a scalar, the empty mapping or the
    error of [.items()]. *)
Lemma flatten_cases data parent_key :
  flatten data parent_key =
  match data with
  | VScalar s =>
      if negb (truthy parent_key) then Ok []
      else Raise (Exn AttributeError
             ("'" +:+ type_name s +:+ "' object has no attribute 'items'"))
  | _ => Ok (dict_update [] (leaf_pairs parent_key (leaves data)))
  end.
Proof. destruct data; [done|by apply flatten_container_leaves..]. Qed.

Lemma path_key_extends parent_key p :
  ∃ rest, path_key parent_key p = parent_key +:+ rest.
Proof.
  revert parent_key. induction p as [|k p IH]; intros pk; simpl.
  - exists "". by rewrite string_app_nil_r.
  - destruct (IH (cur_key pk k)) as [rest ->].
    unfold JsonFlattener.cur_key. destruct (truthy pk) eqn:Hpk.
    + eexists. by rewrite !string_app_assoc.
    + destruct pk; [|done]. by eexists.
Qed.

(** Below a non-empty parent key, the key of a path is the key below the
    end of the parent key, after its start. *)
Lemma path_key_shift a b p :
  truthy b = true → path_key (a +:+ b) p = a +:+ path_key b p.
Proof.
  revert b. induction p as [|k p IH]; intros b Hb; simpl; [done|].
  unfold JsonFlattener.cur_key. rewrite Hb, (truthy_app_r a b Hb).
  rewrite string_app_assoc. apply IH. by destruct b.
Qed.

End FlattenMore.

Lemma leaf_pairs_shift dict_sep list_sep a b ls :
  truthy b = true →
  leaf_pairs dict_sep list_sep (a +:+ b) ls =
  prepend_keys a (leaf_pairs dict_sep list_sep b ls).
Proof.
  intros Hb. unfold leaf_pairs, prepend_keys.
  rewrite map_map. apply map_ext. intros [p s]. simpl.
  by rewrite path_key_shift.
Qed.

Lemma stringify_dict items :
  stringify (VDict items) =
  VDict (map (λ kv, (fst kv, stringify (snd kv))) items).
Proof.
  simpl. f_equal. induction items as [|[k x] items IH]; [done|].
  simpl. by rewrite IH.
Qed.

Lemma stringify_list elems :
  stringify (VList elems) = VDict (stringify_from 0 elems).
Proof.
  simpl. f_equal.
Qed.

(** With one separator for both kinds of keys, the leaves of a value and
    those of its [stringify] get the same keys. *)
Lemma leaf_pairs_stringify sep v :
  ∀ parent_key,
    leaf_pairs sep sep parent_key (leaves (stringify v)) =
    leaf_pairs sep sep parent_key (leaves v).
Proof.
  induction v as [s|items IH|elems IH] using value_ind; intros pk; [done| |].
  - rewrite stringify_dict, !leaves_dict.
    induction IH as [|[k x] items Hx _ IH']; [done|].
    simpl in *. rewrite !leaf_pairs_app, !leaf_pairs_below. by rewrite Hx, IH'.
  - rewrite stringify_list, leaves_dict, leaves_list. unfold enumerate.
    generalize 0%Z as i.
    induction IH as [|x elems Hx _ IH']; intros i; [done|].
    simpl. rewrite !leaf_pairs_app, !leaf_pairs_below. by rewrite Hx, IH'.
Qed.

(** ** [JsonFlattener.flatten]: further properties *)


(** X2: every key of the mapping that [flatten] returns starts with the
    parent key. *)
Theorem flatten_keys_extend_parent dict_sep list_sep data parent_key d k :
  flatten dict_sep list_sep data parent_key = Ok d → k ∈ keys d →
  ∃ rest, k = parent_key +:+ rest.
Proof.
  rewrite flatten_cases. intros Hd Hk. destruct data as [s|items|elems].
  - destruct (negb (truthy parent_key)); [|discriminate Hd].
    injection Hd as <-. by apply elem_of_nil in Hk.
  - injection Hd as <-. apply dict_update_keys in Hk as [Hk|Hk].
    { by apply elem_of_nil in Hk. }
    apply keys_leaf_pairs in Hk as (p & s & _ & <-).
    apply path_key_extends.
  - injection Hd as <-. apply dict_update_keys in Hk as [Hk|Hk].
    { by apply elem_of_nil in Hk. }
    apply keys_leaf_pairs in Hk as (p & s & _ & <-).
    apply path_key_extends.
Qed.

Lemma flatten_keys_extend_parent_witness :
  ∃ rest, "row.a__1" = "row" +:+ rest.
Proof.
  apply (flatten_keys_extend_parent "." "__" doc_object_of_array "row"
           [("row.a__0", SInt 1); ("row.a__1", SInt 2)] "row.a__1").
  - reflexivity.
  - compute_done.
Defined.

(** X3: the mapping that [flatten] returns has pairwise distinct keys and
    at most as many entries as the value has scalar leaves. *)
Theorem flatten_result_size dict_sep list_sep data parent_key d :
  flatten dict_sep list_sep data parent_key = Ok d →
  NoDup (keys d) ∧ (length d ≤ length (leaves data))%nat.
Proof.
  rewrite flatten_cases. intros Hd.
  assert (Hu : ∀ xs : pydict,
            NoDup (keys (dict_update [] xs)) ∧
            (length (dict_update [] xs) ≤ length xs)%nat).
  { intros xs. split; [apply dict_update_NoDup, NoDup_nil_2|].
    apply (dict_update_length [] xs). }
  destruct data as [s|items|elems].
  - destruct (negb (truthy parent_key)); [|discriminate Hd].
    injection Hd as <-. split; [apply NoDup_nil_2|simpl; lia].
  - injection Hd as <-. destruct (Hu (leaf_pairs dict_sep list_sep parent_key
                                        (leaves (VDict items)))) as [H1 H2].
    split; [done|]. unfold leaf_pairs in H2. by rewrite length_map in H2.
  - injection Hd as <-. destruct (Hu (leaf_pairs dict_sep list_sep parent_key
                                        (leaves (VList elems)))) as [H1 H2].
    split; [done|]. unfold leaf_pairs in H2. by rewrite length_map in H2.
Qed.

Lemma flatten_result_size_witness :
  NoDup (keys [("a.b", SInt 2)]) ∧ (length [("a.b", SInt 2)] ≤ 2)%nat.
Proof.
  apply (flatten_result_size "." "__" doc_colliding "" [("a.b", SInt 2)]).
  reflexivity.
Defined.

(** X4: an object flattens to the mapping of its first items updated with
    the mapping of the items that follow. *)
Theorem flatten_merge dict_sep list_sep items1 items2 parent_key :
  flatten dict_sep list_sep (VDict (items1 ++ items2)) parent_key =
  (d1 ← flatten dict_sep list_sep (VDict items1) parent_key;
   d2 ← flatten dict_sep list_sep (VDict items2) parent_key;
   Ok (dict_update d1 d2)).
Proof.
  rewrite !flatten_dict, !flatten_items_leaves. simpl.
  rewrite leaves_items_app, leaf_pairs_app, dict_update_app.
  by rewrite dict_update_build.
Qed.

(** X5: putting [a] before a non-empty parent key puts [a] before every
    key of the result, and changes nothing else. *)
Theorem flatten_parent_shift dict_sep list_sep data a b :
  b ≠ "" →
  flatten dict_sep list_sep data (a +:+ b) =
  (d ← flatten dict_sep list_sep data b; Ok (prepend_keys a d)).
Proof.
  intros Hb. apply truthy_spec in Hb.
  assert (Hab : truthy (a +:+ b) = true) by by apply truthy_app_r.
  rewrite !flatten_cases. destruct data as [s|items|elems].
  - by rewrite Hb, Hab.
  - simpl. rewrite leaf_pairs_shift by done. unfold prepend_keys. f_equal.
    rewrite <- (dict_update_rename (λ k, a +:+ k)) by apply _. done.
  - simpl. rewrite leaf_pairs_shift by done. unfold prepend_keys. f_equal.
    rewrite <- (dict_update_rename (λ k, a +:+ k)) by apply _. done.
Qed.

Lemma flatten_parent_shift_witness :
  flatten "." "__" doc_object_of_array ("rows" +:+ "[3]") =
  Ok [("rows[3].a__0", SInt 1); ("rows[3].a__1", SInt 2)].
Proof.
  rewrite (flatten_parent_shift "." "__" doc_object_of_array "rows" "[3]").
  - reflexivity.
  - discriminate.
Defined.

(** X6: when the two separators are the same string, a value flattens as
    the value in which every array is the object keyed by its indices in
    decimal: the result does not tell an array from such an object. *)
Theorem flatten_equal_separators sep data parent_key :
  flatten sep sep data parent_key = flatten sep sep (stringify data) parent_key.
Proof.
  rewrite !flatten_cases. destruct data as [s|items|elems]; [done| |].
  - rewrite leaf_pairs_stringify. by rewrite stringify_dict.
  - rewrite leaf_pairs_stringify. by rewrite stringify_list.
Qed.

(** ** Files, continued *)

Section FileMore.

Import OS.

(** What opening for writing and writing a text make of the files: the
    text at that path, the other paths as they were. *)
Lemma write_after_open (st st1 : fs) p text :
  open_write st p = Ok st1 →
  contents (write_text st1 p text) p = Some text ∧
  ∀ q, q ≠ path_str p → write_text st1 p text !! q = st !! q.
Proof.
  unfold open_write. intros Hopen.
  assert (∃ r, st1 = <[path_str p := NFile (MkFile "" r true)]> st)
    as [r ->].
  { destruct (st !! path_str p) as [[f|w]|].
    - destruct (f_writable f); [|discriminate Hopen].
      injection Hopen as <-. by eexists.
    - discriminate Hopen.
    - destruct (st !! parent p) as [[f|[|]]|]; try discriminate Hopen.
      injection Hopen as <-. by eexists. }
  unfold write_text, contents. rewrite lookup_insert_eq. simpl.
  rewrite lookup_insert_eq. split; [done|].
  intros q Hq. by rewrite !lookup_insert_ne.
Qed.

(** A file is written anew only where no file or directory is, or over a
    writable file. *)
Lemma open_write_absent_or_file (st st1 : fs) p :
  open_write st p = Ok st1 →
  st !! path_str p = None ∨
  ∃ f, st !! path_str p = Some (NFile f) ∧ f_writable f = true.
Proof.
  unfold open_write. destruct (st !! path_str p) as [[f|w]|]; [| |by left].
  - destruct (f_writable f) eqn:Hw; [|discriminate]. right. by exists f.
  - discriminate.
Qed.

End FileMore.

(** ** [Csv2JsonConverter.convert]: further properties *)

Section ConvertMore.

Import OS Csv2JsonConverter.

Lemma handlers_class self e :
  exn_cls (handlers self e) = PermissionError ∨
  exn_cls (handlers self e) = ValueError ∨
  exn_cls (handlers self e) = RuntimeError.
Proof.
  unfold handlers.
  destruct (subclass (exn_cls e) PermissionError); [by left|].
  destruct (subclass (exn_cls e) UnicodeDecodeError); [by right; left|].
  destruct (subclass (exn_cls e) CsvError); [by right; left|].
  destruct (subclass (exn_cls e) TypeError); [by right; left|].
  by right; right.
Qed.

(** The two ways [convert()] ends. *)
Lemma convert_outcome self (st st' : fs) res :
  convert self st = (res, st') →
  (∃ e, res = Raise e ∧ st' = st ∧
        (exn_cls e = FileExistsError ∨ exn_cls e = PermissionError ∨
         exn_cls e = ValueError ∨ exn_cls e = RuntimeError)) ∨
  (res = Ok () ∧
   ∃ text data st1,
     read_text st (_source self) = Ok text ∧
     Csv.DictReader text = Ok data ∧ data ≠ [] ∧
     open_write st (_destination self) = Ok st1 ∧
     st' = write_text st1 (_destination self)
             (JsonDump.dumps (VList (map VDict data)))).
Proof.
  unfold convert, convert_body.
  destruct (exists_ st (_destination self) && negb (_over_write self)).
  { intros [= <- <-]. left. eexists. split; [done|]. split; [done|by left]. }
  pose proof (handlers_class self) as Hcls.
  destruct (read_text st (_source self)) as [text|e] eqn:Hread.
  2: { intros [= <- <-]. left. exists (handlers self e). naive_solver. }
  destruct (Csv.DictReader text) as [data|e] eqn:Hrows.
  2: { intros [= <- <-]. left. exists (handlers self e). naive_solver. }
  destruct data as [|row data].
  { simpl. intros [= <- <-]. left. eexists. split; [done|].
    split; [done|]. by right; right; right. }
  simpl. destruct (open_write st (_destination self)) as [st1|e] eqn:Hopen.
  2: { intros [= <- <-]. left. exists (handlers self e). naive_solver. }
  intros [= <- <-]. right. split; [done|].
  exists text, (row :: data), st1. by repeat split.
Qed.

(** X8: when [convert()] raises, no file has been changed, and the
    exception is a [FileExistsError], a [PermissionError], a [ValueError]
    or a [RuntimeError]. *)
Theorem convert_failure_changes_nothing self (st st' : fs) e :
  convert self st = (Raise e, st') →
  st' = st ∧
  (exn_cls e = FileExistsError ∨ exn_cls e = PermissionError ∨
   exn_cls e = ValueError ∨ exn_cls e = RuntimeError).
Proof.
  intros Hrun. apply convert_outcome in Hrun as [(e' & [= <-] & -> & Hc)|[? _]];
    [done|discriminate].
Qed.

Lemma convert_failure_changes_nothing_witness :
  Demo.fs_people_old = Demo.fs_people_old ∧
  (FileExistsError = FileExistsError ∨ FileExistsError = PermissionError ∨
   FileExistsError = ValueError ∨ FileExistsError = RuntimeError).
Proof.
  apply (convert_failure_changes_nothing
           (Make Demo.src_csv Demo.dst_json false) Demo.fs_people_old
           Demo.fs_people_old
           (Exn FileExistsError
              "The destination file 'people.json' already exists. Use '--over-write' to overwrite it.")).
  vm_compute. reflexivity.
Defined.





End ConvertMore.

(** ** [AppJsonFlattener.main]: further properties *)

Section MainMore.

Import OS AppJsonFlattener.

Variables dict_sep list_sep : string.






(** X13: what [main()] reports about its source.  A missing source gives
    [FileNotFoundError], whatever its extension; a source that is there
    with another extension than [.json], in any case of the letters,
    gives [ValueError]; a text that [json.load] refuses gives the
    [RuntimeError] of the last clause, which holds the message of the
    decoder. *)
Theorem main_source_errors args (st : fs) :
  (exists_ st (source args) = false →
   main dict_sep list_sep args st =
     (Raise (Exn FileNotFoundError
        ("The source file path '" +:+ path_str (source args) +:+
         "' does not exist.")), st)) ∧
  (exists_ st (source args) = true →
   Text.lower (suffix (source args)) ≠ ".json" →
   main dict_sep list_sep args st =
     (Raise (Exn ValueError
        ("Invalid file type: expected '.json', got '" +:+
         suffix (source args) +:+ "'.")), st)) ∧
  (∀ text msg,
     Text.lower (suffix (source args)) = ".json" →
     exists_ st (output_of (source args)) && negb (overwrite args) = false →
     read_text st (source args) = Ok text →
     JsonLoad.loads text = Raise (Exn JSONDecodeError msg) →
     main dict_sep list_sep args st =
       (Raise (Exn RuntimeError
          ("Unexpected error while processing '" +:+
           path_str (source args) +:+ "' → '" +:+
           path_str (output_of (source args)) +:+ "': " +:+ msg +:+ ".")),
        st)).
Proof.
  unfold main, main_body. split; [|split].
  - by intros ->.
  - intros -> Hsuf. simpl. by rewrite bool_decide_eq_false_2.
  - intros text msg Hsuf Hgate Hread Hload.
    rewrite (read_text_exists _ _ _ Hread), Hsuf, Hgate. simpl.
    rewrite Hread. simpl. rewrite Hload. reflexivity.
Qed.

(** X14: a source that holds a bare scalar is flattened to the empty
    object: [main()] succeeds and the output file holds [{}]. *)
Theorem main_scalar_document args (st : fs) text s :
  Text.lower (suffix (source args)) = ".json" →
  exists_ st (output_of (source args)) && negb (overwrite args) = false →
  read_text st (source args) = Ok text →
  JsonLoad.loads text = Ok (VScalar s) →
  (∃ st1, open_write st (output_of (source args)) = Ok st1) →
  fst (main dict_sep list_sep args st) =
    Ok ("Output location: '" +:+ path_str (output_of (source args)) +:+ "'") ∧
  contents (snd (main dict_sep list_sep args st)) (output_of (source args)) =
    Some "{}".
Proof.
  intros Hsuf Hgate Hread Hload [st1 Hopen].
  unfold main, main_body.
  rewrite (read_text_exists _ _ _ Hread), Hsuf, Hgate. simpl.
  rewrite Hread. simpl. rewrite Hload. simpl. rewrite Hopen. simpl.
  split; [done|]. by apply (write_after_open st st1).
Qed.

End MainMore.

Section MainMoreWitnesses.

Import OS AppJsonFlattener Demo Demo2.



Lemma main_source_errors_witness :
  main "." "__" (MkNamespace (MkPath "data" "bad.json") false) fs_misc =
  (Raise (Exn RuntimeError
     "Unexpected error while processing 'data/bad.json' → 'data/flat_bad.json': Expecting property name enclosed in double quotes."),
   fs_misc) ∧
  main "." "__" (MkNamespace (MkPath "data" "notes.txt") false) fs_misc =
  (Raise (Exn ValueError "Invalid file type: expected '.json', got '.txt'."),
   fs_misc) ∧
  main "." "__" (MkNamespace (MkPath "data" "gone.txt") false) fs_misc =
  (Raise (Exn FileNotFoundError
     "The source file path 'data/gone.txt' does not exist."), fs_misc).
Proof.
  split; [|split].
  - apply (proj2 (proj2 (main_source_errors "." "__"
             (MkNamespace (MkPath "data" "bad.json") false) fs_misc))
             "{1: 2}" "Expecting property name enclosed in double quotes");
      vm_compute; reflexivity.
  - apply (proj1 (proj2 (main_source_errors "." "__"
             (MkNamespace (MkPath "data" "notes.txt") false) fs_misc))).
    + vm_compute; reflexivity.
    + vm_compute. discriminate.
  - apply (proj1 (main_source_errors "." "__"
             (MkNamespace (MkPath "data" "gone.txt") false) fs_misc)).
    vm_compute; reflexivity.
Defined.

Lemma main_scalar_document_witness :
  fst (main "." "__" (MkNamespace (MkPath "data" "n.json") false) fs_misc) =
    Ok "Output location: 'data/flat_n.json'" ∧
  contents (snd (main "." "__" (MkNamespace (MkPath "data" "n.json") false)
                   fs_misc))
    (MkPath "data" "flat_n.json") = Some "{}".
Proof.
  apply (main_scalar_document "." "__"
           (MkNamespace (MkPath "data" "n.json") false) fs_misc "42" (SInt 42)).
  - vm_compute; reflexivity.
  - vm_compute; reflexivity.
  - vm_compute; reflexivity.
  - vm_compute; reflexivity.
  - eexists. vm_compute. reflexivity.
Defined.

End MainMoreWitnesses.

(** ** When the two tools succeed *)

Section Success.

Import OS.

(** X19: [convert()] succeeds exactly when the destination is absent or
    overwriting is on, the source is read as UTF-8 text, the reader finds
    at least one row in it, and the destination can be opened for writing;
    the destination then holds the JSON text of the rows. *)
Theorem convert_succeeds_iff (self : Csv2JsonConverter.t) (st st' : fs) :
  Csv2JsonConverter.convert self st = (Ok (), st') ↔
  exists_ st (Csv2JsonConverter._destination self) &&
    negb (Csv2JsonConverter._over_write self) = false ∧
  ∃ text data st1,
    read_text st (Csv2JsonConverter._source self) = Ok text ∧
    Csv.DictReader text = Ok data ∧ data ≠ [] ∧
    open_write st (Csv2JsonConverter._destination self) = Ok st1 ∧
    st' = write_text st1 (Csv2JsonConverter._destination self)
            (JsonDump.dumps (VList (map VDict data))).
Proof.
  split.
  - intros Hrun. split.
    + unfold Csv2JsonConverter.convert in Hrun.
      by destruct (exists_ st _ && negb _).
    + apply convert_outcome in Hrun as [(e & [=] & _)|(_ & H)]. exact H.
  - intros (Hgate & text & data & st1 & Hread & Hrows & Hne & Hopen & ->).
    unfold Csv2JsonConverter.convert, Csv2JsonConverter.convert_body.
    rewrite Hgate, Hread, Hrows, Hopen. by destruct data.
Qed.


End Success.

Section SuccessWitnesses.

Import OS Demo.

Lemma convert_succeeds_iff_witness :
  ∃ st', Csv2JsonConverter.convert
           (Csv2JsonConverter.Make src_csv dst_json false) fs_people =
         (Ok (), st').
Proof.
  eexists.
  apply (proj2 (convert_succeeds_iff
                  (Csv2JsonConverter.Make src_csv dst_json false) fs_people _)).
  split; [vm_compute; reflexivity|].
  exists people_csv, people_rows,
    (<["people.json" := NFile (MkFile "" true true)]> fs_people).
  split; [vm_compute; reflexivity|]. split; [vm_compute; reflexivity|].
  split; [discriminate|]. split; [vm_compute; reflexivity|]. reflexivity.
Defined.


End SuccessWitnesses.

(** ** Names of files *)

Section NameFacts.

Import OS PathLib.

Lemma substring_all (s : string) : String.substring 0 (String.length s) s = s.
Proof. induction s as [|c s IH]; [done|]. simpl. by rewrite IH. Qed.

Lemma substring_app_r (a b : string) :
  String.substring (String.length a) (String.length b) (a +:+ b) = b.
Proof.
  induction a as [|c a IH]; [apply substring_all|].
  rewrite string_app_cons. simpl. exact IH.
Qed.

Lemma length_substring (s : string) : ∀ i n,
  (i + n ≤ String.length s)%nat →
  String.length (String.substring i n s) = n.
Proof.
  induction s as [|c s IH]; intros [|i] [|n] Hle; simpl in *;
    try done; try lia.
  - f_equal. apply (IH 0%nat). lia.
  - apply (IH i 0%nat). lia.
  - apply (IH i (S n)). lia.
Qed.

Lemma rfind_dot_json (a : string) (i : nat) :
  rfind_dot i (a +:+ ".json") = Some (i + String.length a)%nat.
Proof.
  revert i. induction a as [|c a IH]; intros i.
  - simpl. f_equal. lia.
  - rewrite string_app_cons. simpl. rewrite IH. f_equal. lia.
Qed.

Lemma rfind_dot_bound (s : string) : ∀ i j,
  rfind_dot i s = Some j → (i ≤ j < i + String.length s)%nat.
Proof.
  induction s as [|c s IH]; intros i j; simpl; [done|].
  destruct (rfind_dot (S i) s) as [j'|] eqn:Hr.
  - intros [= <-]. apply IH in Hr. lia.
  - destruct (Ascii.eqb c "."); [|done]. intros [= <-]. lia.
Qed.

(** A name that ends in [.json] after at least one character has the
    suffix [.json]. *)
Lemma suffix_json par (a : string) :
  a ≠ "" → suffix (MkPath par (a +:+ ".json")) = ".json".
Proof.
  intros Ha. unfold suffix. simpl. rewrite rfind_dot_json, string_length_app.
  simpl.
  assert (0 < String.length a)%nat by (destruct a; [done|simpl; lia]).
  rewrite (proj2 (Nat.ltb_lt _ _)) by lia.
  rewrite (proj2 (Nat.ltb_lt _ _)) by lia. simpl.
  replace (String.length a + 5 - String.length a)%nat
    with (String.length ".json") by (simpl; lia).
  apply substring_app_r.
Qed.

(** The name without its suffix is not empty when there is a suffix. *)
Lemma stem_nonempty p :
  suffix p ≠ "" →
  String.substring 0 (String.length (name p) - String.length (suffix p))
    (name p) ≠ "".
Proof.
  unfold suffix. destruct (rfind_dot 0 (name p)) as [i|] eqn:Hr; [|done].
  destruct ((0 <? i)%nat && (i <? String.length (name p) - 1)%nat) eqn:Hc;
    [|done].
  intros _. apply andb_true_iff in Hc as [H0 H1].
  apply Nat.ltb_lt in H0, H1.
  rewrite length_substring by lia.
  replace (String.length (name p) - (String.length (name p) - i))%nat
    with i by lia.
  intros Heq. apply (f_equal String.length) in Heq.
  rewrite length_substring in Heq by lia. simpl in Heq. lia.
Qed.

Lemma lower_nonempty (s : string) : Text.lower s = ".csv" → s ≠ "".
Proof. by intros H ->. Qed.

End NameFacts.

(** ** Directories *)

Section MkdirFacts.

Import OS PathLib.

Lemma kept_refl (st : fs) : kept st st.
Proof. by intros q n. Qed.

Lemma kept_trans (st1 st2 st3 : fs) : kept st1 st2 → kept st2 st3 → kept st1 st3.
Proof. intros H12 H23 q n Hq. by apply H23, H12. Qed.

Lemma kept_insert_new (st : fs) q n :
  st !! q = None → kept st (<[q := n]> st).
Proof.
  intros Hq q' n' Hq'. rewrite lookup_insert_ne; [done|]. congruence.
Qed.

Lemma mkdir_once_spec (st st' : fs) d :
  mkdir_once st d = Ok st' →
  (∃ w, st' !! d = Some (NDir w)) ∧ kept st st'.
Proof.
  unfold mkdir_once.
  destruct (st !! dirname d) as [[f|w]|]; try discriminate.
  destruct (st !! d) as [[f|w']|] eqn:Hd; try discriminate.
  - intros [= <-]. split; [by eexists|apply kept_refl].
  - destruct w; [|discriminate]. intros [= <-]. split.
    + exists true. apply lookup_insert_eq.
    + by apply kept_insert_new.
Qed.

Lemma mkdir_spec fuel : ∀ (st st' : fs) d,
  mkdir fuel st d = Ok st' →
  (∃ w, st' !! d = Some (NDir w)) ∧ kept st st'.
Proof.
  induction fuel as [|fuel IH]; intros st st' d; simpl.
  - destruct (st !! dirname d); [apply mkdir_once_spec|].
    case_decide; [apply mkdir_once_spec|discriminate].
  - destruct (st !! dirname d); [apply mkdir_once_spec|].
    case_decide; [apply mkdir_once_spec|].
    destruct (mkdir fuel st (dirname d)) as [st1|e] eqn:Hpar; [|discriminate].
    simpl. intros Honce. apply IH in Hpar as [_ Hk1].
    apply mkdir_once_spec in Honce as [Hd Hk2].
    split; [done|]. by apply (kept_trans _ st1).
Qed.

End MkdirFacts.

(** ** The constructor of [Csv2JsonConverter] and the command line *)

Section InitFacts.

Import OS PathLib Csv2Json.

Lemma _set_source_spec source (st : fs) p :
  _set_source source st = Ok p →
  source = APath p ∧ Text.lower (suffix p) = ".csv" ∧ exists_ st p = true.
Proof.
  unfold _set_source. destruct source as [p'|tn]; [|discriminate].
  case_bool_decide as Hsuf; simpl; [|discriminate].
  destruct (exists_ st p') eqn:Hex; simpl; [|discriminate].
  by intros [= <-].
Qed.

Lemma _set_destination_spec src destination (st st' : fs) dest :
  suffix src ≠ "" →
  _set_destination src destination st = (Ok dest, st') →
  Text.lower (suffix dest) = ".json" ∧ kept st st' ∧
  ∃ p, destination = APath p ∧
    if truthy (suffix p)
    then dest = p ∧ st' = st
    else dest = joinpath p (name (with_suffix src ".json")) ∧
         ∃ w, st' !! dir_str p = Some (NDir w).
Proof.
  intros Hsrc. unfold _set_destination.
  destruct destination as [p|tn]; [|discriminate].
  destruct (truthy (suffix p)) eqn:Hp; simpl.
  - case_bool_decide as Hsuf; simpl; [|discriminate].
    intros [= <- <-]. split; [done|]. split; [apply kept_refl|].
    exists p. by rewrite Hp.
  - unfold mkdir_parents.
    destruct (mkdir _ st _) as [st1|e] eqn:Hmk; [|discriminate].
    intros [= <- <-]. apply mkdir_spec in Hmk as [Hd Hk].
    split; [|split; [done|]].
    + unfold joinpath, with_suffix. simpl. rewrite suffix_json; [done|].
      by apply stem_nonempty.
    + exists p. by rewrite Hp.
Qed.

Lemma init_over_write_kept source destination over_write (st st' : fs) self :
  __init__ source destination over_write st = (Ok self, st') →
  over_write = Csv2JsonConverter.ABool (Csv2JsonConverter._over_write self) ∧
  kept st st'.
Proof.
  unfold __init__.
  destruct (_set_source source st) as [src|e] eqn:Hsrc; [|discriminate].
  apply _set_source_spec in Hsrc as (-> & Hsuf & Hex).
  destruct (_set_destination src destination st) as [[dest|e] st1] eqn:Hdst;
    [|discriminate].
  apply _set_destination_spec in Hdst as (_ & Hk & _);
    [|by apply lower_nonempty].
  destruct over_write as [b|s]; simpl; [|discriminate].
  by intros [= <- <-].
Qed.

(** X15: a converter that the constructor returns has a source with the
    extension [.csv] and a destination with the extension [.json], in any
    case of the letters; its source exists; [over_write] was given as a
    [bool]; and the constructor has changed or removed no file or
    directory that was there. *)
Theorem init_establishes source destination over_write (st st' : fs) self :
  __init__ source destination over_write st = (Ok self, st') →
  Text.lower (suffix (Csv2JsonConverter._source self)) = ".csv" ∧
  exists_ st' (Csv2JsonConverter._source self) = true ∧
  Text.lower (suffix (Csv2JsonConverter._destination self)) = ".json" ∧
  over_write = Csv2JsonConverter.ABool (Csv2JsonConverter._over_write self) ∧
  kept st st'.
Proof.
  unfold __init__.
  destruct (_set_source source st) as [src|e] eqn:Hsrc; [|discriminate].
  apply _set_source_spec in Hsrc as (-> & Hsuf & Hex).
  destruct (_set_destination src destination st) as [[dest|e] st1] eqn:Hdst;
    [|discriminate].
  apply _set_destination_spec in Hdst as (Hjson & Hk & _);
    [|by apply lower_nonempty].
  destruct over_write as [b|s]; simpl; [|discriminate].
  intros [= <- <-]. simpl. repeat split; try done.
  unfold exists_ in *. destruct (st !! path_str src) as [n|] eqn:Hn; [|done].
  by rewrite (Hk _ _ Hn).
Qed.

(** X16: for a destination without an extension, the constructor takes it
    as a directory: the destination of the converter is the file in it
    named as the source with [.json] for its extension, and the directory
    exists afterwards.  A destination with an extension is taken as it
    is, and no directory is made. *)
Theorem init_destination src p over_write (st st' : fs) self :
  __init__ (APath src) (APath p) over_write st = (Ok self, st') →
  if truthy (suffix p)
  then Csv2JsonConverter._destination self = p ∧ st' = st
  else Csv2JsonConverter._destination self =
         MkPath (dir_str p)
           (String.substring 0
              (String.length (name src) - String.length (suffix src))
              (name src) +:+ ".json") ∧
       ∃ w, st' !! dir_str p = Some (NDir w).
Proof.
  unfold __init__.
  destruct (_set_source (APath src) st) as [src'|e] eqn:Hsrc; [|discriminate].
  apply _set_source_spec in Hsrc as ([= <-] & Hsuf & Hex).
  destruct (_set_destination src (APath p) st) as [[dest|e] st1] eqn:Hdst;
    [|discriminate].
  apply _set_destination_spec in Hdst as (_ & _ & p' & [= <-] & Hp);
    [|by apply lower_nonempty].
  destruct over_write as [b|s]; simpl; [|discriminate].
  intros [= <- <-]. simpl. done.
Qed.

Lemma convert_keeps self (st : fs) :
  Csv2JsonConverter._over_write self = false →
  kept st (snd (Csv2JsonConverter.convert self st)).
Proof.
  intros How. destruct (Csv2JsonConverter.convert self st) as [res st'] eqn:Hrun.
  simpl. pose proof Hrun as Hrun'.
  apply convert_outcome in Hrun
    as [(e & _ & -> & _)|(-> & text & data & st1 & _ & _ & _ & Hopen & ->)].
  { apply kept_refl. }
  intros q n Hq.
  destruct (write_after_open st st1 _
              (JsonDump.dumps (VList (map VDict data))) Hopen) as [_ Hother].
  rewrite Hother; [done|]. intros ->.
  unfold Csv2JsonConverter.convert in Hrun'. rewrite How in Hrun'.
  unfold exists_ in Hrun'. rewrite Hq in Hrun'. simpl in Hrun'.
  discriminate Hrun'.
Qed.

(** X17: the command line of the converter changes or removes no file or
    directory that is there: it only adds.  With [--over-write] on the
    command line it ends with status 1, whatever the argument is; when it
    ends with status 0, it has printed nothing. *)
Theorem command_line_never_replaces args (st : fs) :
  kept st (snd (main args st)) ∧
  (is_Some (over_write args) → fst (fst (main args st)) = 1%Z) ∧
  (fst (fst (main args st)) = 0%Z →
   over_write args = None ∧ snd (fst (main args st)) = []).
Proof.
  unfold main.
  destruct (__init__ _ _ _ st) as [[self|e] st1] eqn:Hinit.
  - pose proof (init_over_write_kept _ _ _ _ _ _ Hinit) as (How & Hk).
    destruct (over_write args) as [s|] eqn:Harg; [discriminate How|].
    injection How as How.
    pose proof (convert_keeps self st1 (eq_sym How)) as Hk'.
    destruct (Csv2JsonConverter.convert self st1) as [[u|e] st2]; simpl in *.
    + split; [by apply (kept_trans _ st1)|]. split; [by intros [? ?]|done].
    + split; [by apply (kept_trans _ st1)|]. split; [done|discriminate].
  - simpl. split; [|split; [done|discriminate]].
    unfold __init__ in Hinit.
    destruct (_set_source _ st) as [src|e0] eqn:Hsrc.
    2: { injection Hinit as <- <-. apply kept_refl. }
    apply _set_source_spec in Hsrc as (_ & Hsuf & _).
    destruct (_set_destination src _ st) as [[dest|e1] st2] eqn:Hdst.
    + apply _set_destination_spec in Hdst as (_ & Hk & _);
        [|by apply lower_nonempty].
      destruct (Csv2JsonConverter._set_over_write _); [discriminate|].
      by injection Hinit as <- <-.
    + injection Hinit as <- <-. unfold _set_destination in Hdst.
      destruct (truthy (suffix (default _ (destination args)))); simpl in Hdst.
      * case_bool_decide; simpl in Hdst; [discriminate Hdst|].
        injection Hdst as _ <-. apply kept_refl.
      * destruct (mkdir_parents st _); [discriminate Hdst|].
        injection Hdst as _ <-. apply kept_refl.
Qed.

End InitFacts.

Section InitWitnesses.

Import OS PathLib Csv2Json Demo.

Lemma init_establishes_witness :
  ∃ self st',
    __init__ (APath src_csv) (APath (MkPath "out" "deep"))
      (Csv2JsonConverter.ABool false) fs_people = (Ok self, st') ∧
    Text.lower (suffix (Csv2JsonConverter._destination self)) = ".json" ∧
    kept fs_people st'.
Proof.
  destruct (__init__ (APath src_csv) (APath (MkPath "out" "deep"))
              (Csv2JsonConverter.ABool false) fs_people)
    as [[self|e] st'] eqn:Hinit.
  - exists self, st'. split; [reflexivity|].
    destruct (init_establishes _ _ _ _ _ _ Hinit) as (_ & _ & Hd & _ & Hk).
    by split.
  - vm_compute in Hinit. discriminate Hinit.
Defined.

Lemma init_destination_witness :
  ∃ self st',
    __init__ (APath src_csv) (APath (MkPath "out" "deep"))
      (Csv2JsonConverter.ABool false) fs_people = (Ok self, st') ∧
    Csv2JsonConverter._destination self = MkPath "out/deep" "people.json" ∧
    ∃ w, st' !! "out/deep" = Some (NDir w).
Proof.
  destruct (__init__ (APath src_csv) (APath (MkPath "out" "deep"))
              (Csv2JsonConverter.ABool false) fs_people)
    as [[self|e] st'] eqn:Hinit.
  - exists self, st'. split; [reflexivity|].
    exact (init_destination src_csv (MkPath "out" "deep") _ _ _ _ Hinit).
  - vm_compute in Hinit. discriminate Hinit.
Defined.

Lemma command_line_never_replaces_witness :
  fst (fst (main (MkArgs src_csv (Some dst_json) (Some "True"))
              fs_people_old)) = 1%Z ∧
  snd (main (MkArgs src_csv (Some dst_json) (Some "True")) fs_people_old)
    !! "people.json" = Some (regular "old").
Proof.
  destruct (command_line_never_replaces
              (MkArgs src_csv (Some dst_json) (Some "True")) fs_people_old)
    as (Hk & Hone & _).
  split.
  - apply Hone. by eexists.
  - apply Hk. reflexivity.
Defined.

End InitWitnesses.

(** ** Reading a table of plain cells *)

Section TableFacts.

Import Text Csv Table.





















End TableFacts.

Section TableConvert.

Import OS Csv2JsonConverter Table.



End TableConvert.

(** ** [flatten] on objects in memory: further properties *)

(** X7: however the call ends, and whatever the store holds (shared or
    cyclic objects, any parent key, any limit on the nested calls), every
    object that was in the store before [flatten] is there afterwards,
    unchanged: the method assigns only to dictionaries it has created. *)
Theorem flatten_never_mutates dict_sep list_sep fuel (data : Heap.loc)
    parent_key (h h' : Heap.heap) res :
  Heap.flatten dict_sep list_sep fuel data parent_key h = (res, h') →
  ∀ (i : Heap.loc) o, h !! i = Some o → h' !! i = Some o.
Proof.
  intros Hcall.
  pose proof (flatten_preserved dict_sep list_sep fuel data parent_key h) as Hp.
  rewrite Hcall in Hp. exact Hp.
Qed.

Lemma flatten_never_mutates_witness :
  ∃ h', snd (Heap.flatten "." "__" 50 0%nat "x" heap_cycle) = h' ∧
        h' !! 0%nat = Some (Heap.OList [0%nat]).
Proof.
  eexists. split; [reflexivity|].
  apply (flatten_never_mutates "." "__" 50 0%nat "x" heap_cycle _
           (fst (Heap.flatten "." "__" 50 0%nat "x" heap_cycle))).
  - by destruct (Heap.flatten "." "__" 50 0%nat "x" heap_cycle).
  - reflexivity.
Defined.
